(** * proxies_log: the SNI blocking proxy and the browser traffic logger

    Two programs are embedded here.

    - [SniProxy] is the TCP proxy of [README.md]: [extractSNI] walks a TLS
      ClientHello, and the connection handler of [net.createServer] blocks or
      tunnels the connection.
    - [TrafficLogger] is the class [BrowserTrafficLogger] of [src/server.ts]:
      destination resolution of plain requests, CONNECT tunnels, the audit
      log and [getStats].

    JavaScript values are modelled as the code uses them: a [Buffer] is a list
    of bytes, a [number] is an integer or [NaN], [undefined] is [None], an
    exception is a [Throws] outcome. *)

From Stdlib Require Import ZArith Lia Ascii String.
From Stdlib.Strings Require Import Byte.
From Stdlib Require Import Sorting.Sorted.
From stdpp Require Import base option list gmap strings sorting.

Module SniProxy.

Local Open Scope Z_scope.

(** ** JavaScript values *)

(** A [Buffer] is a sequence of octets. *)
Abbreviation Buffer := (list byte).

Definition byte_val (b : byte) : Z := Z.of_N (Byte.to_N b).

(** A JavaScript number as the parser meets it: an integer, or [NaN] (the
    result of adding [undefined]). *)
Inductive number :=
  | Int (z : Z)
  | NaN.

(** A string is its sequence of UTF-16 code units. *)
Abbreviation JsString := (list Z).

Definition str (s : string) : JsString :=
  (fun c => Z.of_N (N_of_ascii c)) <$> list_ascii_of_string s.

(** The errors [Buffer.readUInt16BE] raises ([ERR_OUT_OF_RANGE] and
    [ERR_BUFFER_OUT_OF_BOUNDS] are both [RangeError]s). *)
Inductive error :=
  | RangeError.

(** How a call ends.  [Timeout] is the model's own: the [while] loop of
    [extractSNI] runs on fuel, and [extractSNI_total] shows that the fuel it is
    given is never used up. *)
Inductive outcome (A : Type) :=
  | Returns (a : A)
  | Throws (e : error)
  | Timeout.
Arguments Returns {A} a.
Arguments Throws {A} e.
Arguments Timeout {A}.

Definition bind {A B} (m : outcome A) (k : A -> outcome B) : outcome B :=
  match m with
  | Returns a => k a
  | Throws e => Throws e
  | Timeout => Timeout
  end.

Declare Scope js_scope.
Delimit Scope js_scope with js.
Notation "'let!' x ':=' m 'in' k" := (bind m (fun x => k))
  (at level 10, x name, m at level 100, k at level 200) : js_scope.

(** [a + b] on numbers; [NaN] is absorbing. *)
Definition plus (a b : number) : number :=
  match a, b with
  | Int x, Int y => Int (x + y)
  | _, _ => NaN
  end.

(** [ToNumber] of a value read from a buffer: [undefined] becomes [NaN]. *)
Definition to_number (v : option Z) : number :=
  match v with
  | Some z => Int z
  | None => NaN
  end.

(** Comparisons; every comparison with [NaN] is false. *)
Definition le (a b : number) : bool :=
  match a, b with
  | Int x, Int y => x <=? y
  | _, _ => false
  end.

Definition gt (a b : number) : bool :=
  match a, b with
  | Int x, Int y => y <? x
  | _, _ => false
  end.

Definition ge (a b : number) : bool :=
  match a, b with
  | Int x, Int y => y <=? x
  | _, _ => false
  end.

(** [v === k] for a value read from a buffer and an integer literal. *)
Definition strict_eq (v : option Z) (k : Z) : bool :=
  match v with
  | Some z => z =? k
  | None => false
  end.

Infix "+" := plus : js_scope.
Infix "<=" := le : js_scope.
Infix ">" := gt : js_scope.
Infix ">=" := ge : js_scope.
Infix "===" := strict_eq (at level 70) : js_scope.
Coercion Int : Z >-> number.

(** ** Buffer primitives *)

(** [data.length] *)
Definition length_of (data : Buffer) : number := Int (Z.of_nat (length data)).

(** [data[i]]: the octet at an integer index inside the buffer, [undefined]
    elsewhere. *)
Definition index (data : Buffer) (i : number) : option Z :=
  match i with
  | Int z => if z <? 0 then None else byte_val <$> data !! Z.to_nat z
  | NaN => None
  end.

(** [data.readUInt16BE(offset)], as Node implements it: both octets are read
    with [this[offset]] and [this[offset + 1]], and the call throws a
    [RangeError] when either is [undefined]. *)
Definition readUInt16BE (data : Buffer) (offset : number) : outcome Z :=
  match index data offset, index data (plus offset (Int 1)) with
  | Some first, Some last => Returns (first * 2 ^ 8 + last)
  | _, _ => Throws RangeError
  end.

(** [data.slice(start, end)]: both ends are clamped to the buffer, a negative
    end counts from the back, [NaN] is [0]. *)
Definition clamp (len : Z) (n : number) : Z :=
  match n with
  | Int z => if z <? 0 then Z.max 0 (len + z) else Z.min z len
  | NaN => 0
  end.

Definition slice (data : Buffer) (start end_ : number) : Buffer :=
  let len := Z.of_nat (length data) in
  let s := clamp len start in
  let e := clamp len end_ in
  take (Z.to_nat (e - s)) (drop (Z.to_nat s) data).

(** *** [buf.toString('utf8')]

    The decoder replaces every ill-formed sequence by U+FFFD, a maximal
    subpart at a time, and does not strip a byte order mark. *)
Inductive lead :=
  | Emit (c : Z)
  | Need (cp : Z) (n : nat) (lo hi : Z)
  | Bad.

Definition classify (b : Z) : lead :=
  if b <=? 0x7F then Emit b
  else if (0xC2 <=? b) && (b <=? 0xDF) then Need (Z.land b 0x1F) 1 0x80 0xBF
  else if (0xE0 <=? b) && (b <=? 0xEF) then
    Need (Z.land b 0xF) 2 (if b =? 0xE0 then 0xA0 else 0x80)
         (if b =? 0xED then 0x9F else 0xBF)
  else if (0xF0 <=? b) && (b <=? 0xF4) then
    Need (Z.land b 0x7) 3 (if b =? 0xF0 then 0x90 else 0x80)
         (if b =? 0xF4 then 0x8F else 0xBF)
  else Bad.

(** The pending state is the code point so far, the number of continuation
    octets still needed and the range the next one must lie in. *)
Fixpoint utf8_decode (st : option (Z * nat * Z * Z)) (bs : list Z) : list Z :=
  match bs with
  | [] => match st with None => [] | Some _ => [0xFFFD] end
  | b :: bs' =>
      let start (pre : list Z) :=
        match classify b with
        | Emit c => pre ++ c :: utf8_decode None bs'
        | Need cp n lo hi => pre ++ utf8_decode (Some (cp, n, lo, hi)) bs'
        | Bad => pre ++ 0xFFFD :: utf8_decode None bs'
        end in
      match st with
      | None => start []
      | Some (cp, n, lo, hi) =>
          if (lo <=? b) && (b <=? hi) then
            let cp' := Z.lor (Z.shiftl cp 6) (Z.land b 0x3F) in
            match n with
            | S (S n') => utf8_decode (Some (cp', S n', 0x80, 0xBF)) bs'
            | _ => cp' :: utf8_decode None bs'
            end
          else start [0xFFFD]
      end
  end.

(** A code point as UTF-16 code units. *)
Definition utf16_units (cp : Z) : list Z :=
  if cp <? 0x10000 then [cp]
  else [0xD800 + Z.shiftr (cp - 0x10000) 10; 0xDC00 + Z.land (cp - 0x10000) 0x3FF].

Definition toString_utf8 (data : Buffer) : JsString :=
  utf8_decode None (byte_val <$> data) ≫= utf16_units.

(** ** [extractSNI] *)

Local Open Scope js_scope.

(** The [while] loop over the extensions.  [end_] and [i] are the variables
    of the source; each round moves [i] forward by at least four octets. *)
Fixpoint scanExtensions (fuel : nat) (data : Buffer) (end_ i : number)
  : outcome (option JsString) :=
  match fuel with
  | O => Timeout
  | S fuel' =>
      if (i + 4 <= end_) && (i + 4 <= length_of data) then
        let! extType := readUInt16BE data i in
        let! extLen := readUInt16BE data (i + 2) in
        let i := i + 4 in
        if (extType =? 0x00)%Z && (i + extLen <= length_of data) then
          let! sniListLen := readUInt16BE data (i + 2) in
          let sniType := index data (i + 4) in
          let! sniLen := readUInt16BE data (i + 5) in
          let sni := toString_utf8 (slice data (i + 7) (i + 7 + sniLen)) in
          Returns (Some sni)
        else
          let i := i + extLen in
          scanExtensions fuel' data end_ i
      else Returns None
  end.

Definition extractSNI (data : Buffer) : outcome (option JsString) :=
  let i : number := 0 in
  if negb (index data i === 0x16) then Returns None else
  let i := i + 5 in
  let i := i + 38 in
  if i >= length_of data then Returns None else
  let sessionIDLength := to_number (index data i) in
  let i := i + (1 + sessionIDLength) in
  if i + 2 > length_of data then Returns None else
  let! cipherSuiteLength := readUInt16BE data i in
  let i := i + (2 + cipherSuiteLength) in
  let compressionMethodLength := to_number (index data i) in
  let i := i + (1 + compressionMethodLength) in
  if i + 2 > length_of data then Returns None else
  let! extensionsLength := readUInt16BE data i in
  let i := i + 2 in
  let end_ := i + extensionsLength in
  scanExtensions (length data) data end_ i.

Local Close Scope js_scope.

(** ** The connection handler of [net.createServer] *)

Definition BLOCKED_DOMAINS : gset JsString :=
  {[ str "www.facebook.com"; str "example.com" ]}.

(** [BLOCKED_DOMAINS.has(sni)] *)
Definition has (sni : JsString) : bool := bool_decide (sni ∈ BLOCKED_DOMAINS).

(** Truthiness of a [string | null]: [null] and the empty string are falsy. *)
Definition truthy (sni : option JsString) : bool :=
  match sni with
  | Some (_ :: _) => true
  | _ => false
  end.

(** [sni || ''] *)
Definition or_empty (sni : option JsString) : JsString := default [] sni.

(** What the sockets deliver to the handlers the program registers. *)
Inductive event :=
  | ClientData (chunk : Buffer)   (* 'data' on clientSocket *)
  | ClientEnd                     (* the client half-closes *)
  | ClientError                   (* 'error' on clientSocket *)
  | RemoteConnect                 (* the connect callback of net.connect *)
  | RemoteData (chunk : Buffer)   (* 'data' on remoteSocket *)
  | RemoteEnd                     (* the upstream half-closes *)
  | RemoteError.                  (* 'error' on remoteSocket *)

(** What the program does to the outside. *)
Inductive action :=
  | ConsoleLog (msg : JsString)
  | ConsoleError (msg : JsString)
  | ClientSocketEnd                       (* clientSocket.end() *)
  | ClientWrite (chunk : Buffer)          (* a chunk piped to clientSocket *)
  | NetConnect (port : Z) (host : JsString)
  | RemoteWrite (chunk : Buffer)          (* remoteSocket.write, or a piped chunk *)
  | RemoteSocketEnd.                      (* remoteSocket.end(), by the pipe *)

(** The upstream socket of one connection. *)
Inductive upstream :=
  | NoUpstream                (* net.connect has not been called *)
  | Pending (data : Buffer)   (* connecting; the callback holds the first chunk *)
  | Open                      (* the callback ran: both pipes are set up *)
  | Gone.                     (* ended or failed *)

Record conn := {
  listening : bool;     (* the once('data') listener is still registered *)
  client_live : bool;   (* clientSocket is neither ended nor destroyed *)
  remote : upstream
}.

(** An exception that escapes the 'data' listener is uncaught and ends the
    process. *)
Inductive process :=
  | Running (c : conn)
  | Crashed.

Definition accepted : process :=
  Running {| listening := true; client_live := true; remote := NoUpstream |}.

(** The listener of [clientSocket.once('data', ...)]. *)
Definition onData (c : conn) (data : Buffer) : process * list action :=
  match extractSNI data with
  | Returns sni =>
      if truthy sni && has (or_empty sni) then
        (Running {| listening := false; client_live := false; remote := NoUpstream |},
         [ConsoleLog (str "Blocked: " ++ or_empty sni); ClientSocketEnd])
      else
        (Running {| listening := false; client_live := client_live c;
                    remote := Pending data |},
         [NetConnect 443 (or_empty sni)])
  | _ => (Crashed, [])
  end.

(** One event.  A chunk that arrives from the client while no listener and no
    pipe is attached is lost; an ended or failed socket carries no more
    chunks. *)
Definition step (p : process) (e : event) : process * list action :=
  match p with
  | Crashed => (Crashed, [])
  | Running c =>
      match e with
      | ClientData chunk =>
          if listening c then onData c chunk
          else match remote c with
               | Open => (p, if client_live c then [RemoteWrite chunk] else [])
               | _ => (p, [])
               end
      | ClientEnd =>
          match remote c with
          | Open =>
              (Running {| listening := false; client_live := false; remote := Gone |},
               if client_live c then [RemoteSocketEnd] else [])
          | r => (Running {| listening := false; client_live := false; remote := r |}, [])
          end
      | ClientError =>
          (Running {| listening := false; client_live := false; remote := remote c |},
           [ConsoleError (str "Client socket error:")])
      | RemoteConnect =>
          match remote c with
          | Pending data =>
              (Running {| listening := listening c; client_live := client_live c;
                          remote := Open |},
               [RemoteWrite data])
          | _ => (p, [])
          end
      | RemoteData chunk =>
          match remote c with
          | Open => (p, if client_live c then [ClientWrite chunk] else [])
          | _ => (p, [])
          end
      | RemoteEnd =>
          match remote c with
          | Open =>
              (Running {| listening := false; client_live := false; remote := Gone |},
               if client_live c then [ClientSocketEnd] else [])
          | _ => (p, [])
          end
      | RemoteError =>
          match remote c with
          | Pending _ | Open =>
              (Running {| listening := false; client_live := false; remote := Gone |},
               [ConsoleError (str "Remote socket error:"); ClientSocketEnd])
          | _ => (p, [])
          end
      end
  end.

(** The actions of a whole run, in order. *)
Fixpoint run (p : process) (evs : list event) : process * list action :=
  match evs with
  | [] => (p, [])
  | e :: evs' =>
      let '(p1, out1) := step p e in
      let '(p2, out2) := run p1 evs' in
      (p2, out1 ++ out2)
  end.

Definition trace (evs : list event) : list action := (run accepted evs).2.

(** The chunks written to the upstream socket, in order. *)
Definition upstream_writes (tr : list action) : list Buffer :=
  omap (fun a => match a with RemoteWrite chunk => Some chunk | _ => None end) tr.

(** What [clientSocket.pipe(remoteSocket).pipe(clientSocket)] does with a
    chunk of data. *)
Definition piped (e : event) : list action :=
  match e with
  | ClientData chunk => [RemoteWrite chunk]
  | RemoteData chunk => [ClientWrite chunk]
  | _ => []
  end.

Definition is_data (e : event) : bool :=
  match e with
  | ClientData _ | RemoteData _ => true
  | _ => false
  end.

(** A chunk from the client. *)
Definition is_client_data (e : event) : bool :=
  match e with
  | ClientData _ => true
  | _ => false
  end.

(** An event of the client socket: a chunk, its end, or an error. *)
Definition is_client (e : event) : bool :=
  match e with
  | ClientData _ | ClientEnd | ClientError => true
  | _ => false
  end.

(** An action that opens or touches an upstream socket. *)
Definition touches_upstream (a : action) : bool :=
  match a with
  | NetConnect _ _ | RemoteWrite _ | RemoteSocketEnd => true
  | _ => false
  end.

(** ** Encoding a ClientHello (RFC 8446, 4.1.2; RFC 6066, 3)

    These build the inputs of the parser: the record and handshake headers,
    the three length-prefixed vectors and the extension block. *)

Definition octet (n : Z) : byte := default x00 (Byte.of_N (Z.to_N n)).

Definition u16 (n : Z) : Buffer := [octet (n / 256); octet (n mod 256)].

Definition u24 (n : Z) : Buffer :=
  [octet (n / 65536); octet ((n / 256) mod 256); octet (n mod 256)].

Definition len (b : Buffer) : Z := Z.of_nat (length b).

(** One extension: type, length, payload. *)
Definition extension (type : Z) (payload : Buffer) : Buffer :=
  u16 type ++ u16 (len payload) ++ payload.

(** The server-name extension for one host name: 2-byte list length, 1-byte
    name type ([0], host_name), 2-byte name length, the name. *)
Definition serverName (host : Buffer) : Buffer :=
  extension 0 (u16 (len host + 3) ++ [octet 0] ++ u16 (len host) ++ host).

Definition clientHello (random sessionID cipherSuites compression exts : Buffer)
  : Buffer :=
  let body :=
    [octet 3; octet 3] ++ random
    ++ [octet (len sessionID)] ++ sessionID
    ++ u16 (len cipherSuites) ++ cipherSuites
    ++ [octet (len compression)] ++ compression
    ++ u16 (len exts) ++ exts in
  [octet 0x16; octet 3; octet 1] ++ u16 (len body + 4)
  ++ [octet 1] ++ u24 (len body) ++ body.

Definition ascii_bytes (s : string) : Buffer := list_byte_of_string s.

(** A ClientHello with an empty session id, one cipher suite, the null
    compression method and the server name ["example.com"] as its only
    extension. *)
Definition hello_example_com : Buffer :=
  clientHello (replicate 32 (octet 7)) [] [octet 0x13; octet 0x01] [octet 0]
    (serverName (ascii_bytes "example.com")).

(** The same message cut after the cipher-suite length field: the field
    announces two octets that are not there. *)
Definition hello_truncated : Buffer := take 46 hello_example_com.

(** A ClientHello whose only extension has type 0 and no payload. *)
Definition hello_empty_server_name : Buffer :=
  clientHello (replicate 32 (octet 7)) [] [octet 0x13; octet 0x01] [octet 0]
    (extension 0 []).

(** A ClientHello whose name field holds ["example.com"] two octets further
    on, behind a two-octet length: the layout the parser reads. *)
Definition hello_shifted : Buffer :=
  clientHello (replicate 32 (octet 7)) [] [octet 0x13; octet 0x01] [octet 0]
    (serverName (u16 11 ++ ascii_bytes "example.com")).

(** The extension block: the extensions one after the other, each as its
    type and its payload. *)
Definition encode_extensions (exts : list (Z * Buffer)) : Buffer :=
  exts ≫= (fun e => extension e.1 e.2).

(** An extension of another type than server_name, with sizes that fit the
    two-octet fields. *)
Definition other_extension (e : Z * Buffer) : Prop :=
  0 < e.1 < 65536 /\ len e.2 < 65536.

(** The chunks the two sockets deliver, in order. *)
Definition client_chunks (evs : list event) : list Buffer :=
  omap (fun e => match e with ClientData chunk => Some chunk | _ => None end) evs.

Definition remote_chunks (evs : list event) : list Buffer :=
  omap (fun e => match e with RemoteData chunk => Some chunk | _ => None end) evs.

(** The chunks written back to the client, in order. *)
Definition client_writes (tr : list action) : list Buffer :=
  omap (fun a => match a with ClientWrite chunk => Some chunk | _ => None end) tr.

(** The chunk a pending connection still has to replay. *)
Definition held (p : process) : list Buffer :=
  match p with
  | Running {| remote := Pending data |} => [data]
  | _ => []
  end.

(** The calls of [net.connect], in order. *)
Definition connects (tr : list action) : list (Z * JsString) :=
  omap (fun a => match a with NetConnect port host => Some (port, host) | _ => None end) tr.

End SniProxy.

Module TrafficLogger.

Local Open Scope string_scope.
Local Open Scope Z_scope.

(** ** JavaScript strings

    The strings of this program come out of Node's HTTP parser, which yields
    one character per octet of the request: they are sequences of 8-bit
    characters. *)

Definition LF : string := String (ascii_of_nat 10) "".
Definition CRLF : string := String (ascii_of_nat 13) LF.

(** [v || d] for a [string | undefined]: [undefined] and [""] are falsy. *)
Definition or_str (v : option string) (d : string) : string :=
  match v with
  | Some (String c s) => String c s
  | _ => d
  end.

(** [v || d] for the number [parseInt] returns: [NaN] and [0] are falsy. *)
Definition or_num (v : option Z) (d : Z) : Z :=
  match v with
  | Some z => if z =? 0 then d else z
  | None => d
  end.

(** [s.startsWith(p)] *)
Definition startsWith (s p : string) : bool := String.prefix p s.

(** [s.split(sep)] for a one-character separator. *)
Fixpoint split (sep : ascii) (s : string) : list string :=
  match s with
  | "" => [""]
  | String c s' =>
      if Ascii.eqb c sep then "" :: split sep s'
      else match split sep s' with
           | h :: t => String c h :: t
           | [] => [String c ""]
           end
  end.

(** White space that [parseInt] skips, among 8-bit characters: TAB, LF, VT,
    FF, CR, SP and NBSP. *)
Definition is_space (c : ascii) : bool :=
  let n := Z.of_N (N_of_ascii c) in
  ((9 <=? n) && (n <=? 13)) || (n =? 32) || (n =? 160).

Fixpoint trim_start (s : string) : string :=
  match s with
  | String c s' => if is_space c then trim_start s' else s
  | "" => ""
  end.

Definition digit_of (c : ascii) : option Z :=
  let n := Z.of_N (N_of_ascii c) in
  if (48 <=? n) && (n <=? 57) then Some (n - 48)
  else if (97 <=? n) && (n <=? 122) then Some (n - 87)
  else if (65 <=? n) && (n <=? 90) then Some (n - 55)
  else None.

(** The longest prefix of digits of the radix, as a number; [None] when there
    is no digit. *)
Fixpoint digits (radix : Z) (acc : option Z) (s : string) : option Z :=
  match s with
  | String c s' =>
      match digit_of c with
      | Some d =>
          if d <? radix then digits radix (Some (default 0 acc * radix + d)) s'
          else acc
      | None => acc
      end
  | "" => acc
  end.

(** [parseInt(s)] without a radix; [None] is [NaN].  The value is the exact
    integer (a double rounds it from 2^53 on). *)
Definition parseInt (s : string) : option Z :=
  let s := trim_start s in
  let '(sign, s) :=
    match s with
    | String "-" s' => (-1, s')
    | String "+" s' => (1, s')
    | _ => (1, s)
    end in
  let '(radix, s) :=
    match s with
    | String "0" (String "x" s') => (16, s')
    | String "0" (String "X" s') => (16, s')
    | _ => (10, s)
    end in
  Z.mul sign <$> digits radix None s.

(** The longest prefix of characters that satisfy [p], and the rest. *)
Fixpoint span (p : ascii -> bool) (s : string) : string * string :=
  match s with
  | String c s' =>
      if p c then let '(a, b) := span p s' in (String c a, b) else ("", s)
  | "" => ("", "")
  end.

Definition strip_prefix (p s : string) : option string :=
  if String.prefix p s
  then Some (String.substring (String.length p) (String.length s - String.length p)%nat s)
  else None.

Definition not_slash (c : ascii) : bool := negb (Ascii.eqb c "/").

(** [.] of a regular expression: any character but a line terminator. *)
Definition not_newline (c : ascii) : bool :=
  negb (Ascii.eqb c (ascii_of_nat 10) || Ascii.eqb c (ascii_of_nat 13)).

(** [s.match] with the pattern of the fallback branch: [http], an optional
    [s], [://], then group 1, one or more characters other than [/], and
    group 2, the rest of the line.  The two groups, or [None] for [null]. *)
Definition matchUrl (s : string) : option (string * string) :=
  let rest :=
    match strip_prefix "https://" s with
    | Some r => Some r
    | None => strip_prefix "http://" s
    end in
  match rest with
  | Some r =>
      let '(hostPort, after) := span not_slash r in
      match hostPort with
      | "" => None
      | _ => Some (hostPort, (span not_newline after).1)
      end
  | None => None
  end.

(** ** The audit log *)

Inductive Protocol :=
  | HTTP
  | HTTPS.

Definition protocol_name (p : Protocol) : string :=
  match p with
  | HTTP => "HTTP"
  | HTTPS => "HTTPS"
  end.

Record LogEntry := {
  timestamp : string;
  method : string;
  hostname : string;
  path : string;
  protocol : Protocol;
  userAgent : option string
}.

(** The fields of [BrowserTrafficLogger] that requests change, and the file
    [browser_traffic.log] as the lines appended to it.  Console output is left
    out. *)
Record Logger := {
  logEntries : list LogEntry;
  uniqueDomains : gset string;
  logFile : list string
}.

Definition empty_logger : Logger :=
  {| logEntries := []; uniqueDomains := ∅; logFile := [] |}.

Definition logLine (entry : LogEntry) : string :=
  (timestamp entry ++ " | " ++ protocol_name (protocol entry) ++ " | "
   ++ method entry ++ " | " ++ hostname entry ++ path entry ++ " | "
   ++ or_str (userAgent entry) "Unknown" ++ LF)%string.

Definition writeToLogFile (entry : LogEntry) (st : Logger) : Logger :=
  {| logEntries := logEntries st;
     uniqueDomains := uniqueDomains st;
     logFile := logFile st ++ [logLine entry] |}.

Definition logRequest (entry : LogEntry) (st : Logger) : Logger :=
  writeToLogFile entry
    {| logEntries := logEntries st ++ [entry];
       uniqueDomains := {[ hostname entry ]} ∪ uniqueDomains st;
       logFile := logFile st |}.

Definition clearLogs (st : Logger) : Logger :=
  {| logEntries := []; uniqueDomains := ∅; logFile := logFile st |}.

(** ** Requests *)

(** An [http.IncomingMessage] as the server receives it; Node sets [url] on
    every request a server gets. *)
Record IncomingMessage := {
  req_method : string;
  url : string;
  headers : gmap string string
}.

Definition request (m u : string) (h : gmap string string) : IncomingMessage :=
  {| req_method := m; url := u; headers := h |}.

(** The fields of the object [url.parse] returns that the program reads;
    [None] is [null]. *)
Record UrlObject := {
  url_protocol : option string;
  url_hostname : option string;
  url_port : option string;
  url_path : option string
}.

(** [array[i]] of a destructuring pattern. *)
Definition item (l : list string) (i : nat) : option string := l !! i.

Record RequestOptions := {
  opt_hostname : string;
  opt_port : Z;
  opt_path : string;
  opt_method : string;
  opt_headers : gmap string string
}.

(** What a handler does to the response, the sockets and the network. *)
Inductive action :=
  | WriteHead (status : Z)                  (* res.writeHead(status) *)
  | EndResponse (body : string)             (* res.end(body) *)
  | HttpRequest (options : RequestOptions)  (* http.request(options), fed by req.pipe *)
  | NetConnect (port : Z) (host : string)   (* net.connect(port, host) *)
  | ClientWrite (chunk : string)            (* clientSocket.write, or a piped chunk *)
  | ServerWrite (chunk : string)            (* serverSocket.write, or a piped chunk *)
  | ClientSocketEnd                         (* clientSocket.end() *)
  | ServerSocketEnd.                        (* serverSocket.end() *)

Record Destination := {
  dest_hostname : string;
  dest_path : string;
  dest_port : Z
}.

Section WithUrlParse.

(** [url.parse] of Node's [url] module. *)
Variable url_parse : string -> UrlObject.

(** The three-way [if] of [handleHttpRequest] that fills [hostname], [path]
    and [port]. *)
Definition resolve (req : IncomingMessage) : Destination :=
  if startsWith (url req) "http://" || startsWith (url req) "https://" then
    let reqUrl := url_parse (url req) in
    {| dest_hostname := or_str (url_hostname reqUrl) "";
       dest_path := or_str (url_path reqUrl) "/";
       dest_port :=
         or_num (parseInt (or_str (url_port reqUrl) "80"))
                (if bool_decide (url_protocol reqUrl = Some "https:") then 443 else 80) |}
  else
    match headers req !! "host" with
    | Some (String c h) =>
        let hostHeader := String c h in
        let parts := split ":" hostHeader in
        {| dest_hostname := or_str (item parts 0) "";
           dest_path := or_str (Some (url req)) "/";
           dest_port := or_num (parseInt (or_str (item parts 1) "80")) 80 |}
    | _ =>
        match matchUrl (url req) with
        | Some (String c h, urlPath) =>
            let parts := split ":" (String c h) in
            {| dest_hostname := or_str (item parts 0) "";
               dest_path := or_str (Some urlPath) "/";
               dest_port := or_num (parseInt (or_str (item parts 1) "80")) 80 |}
        | _ =>
            {| dest_hostname := "";
               dest_path := or_str (Some (url req)) "/";
               dest_port := 80 |}
        end
    end.

Definition bad_request : string :=
  "Bad Request - Could not determine target hostname".

(** [handleHttpRequest], up to the point where the request is piped to the
    destination.  [now] is [new Date().toISOString()]. *)
Definition handleHttpRequest (now : string) (req : IncomingMessage) (st : Logger)
  : Logger * list action :=
  let d := resolve req in
  let hostname := dest_hostname d in
  if String.eqb hostname "" || String.eqb hostname "unknown" || String.eqb hostname ""
  then (st, [WriteHead 400; EndResponse bad_request])
  else
    let st :=
      logRequest
        {| timestamp := now;
           method := req_method req;
           hostname := hostname;
           path := dest_path d;
           protocol := HTTP;
           userAgent := headers req !! "user-agent" |} st in
    let options :=
      {| opt_hostname := hostname;
         opt_port := dest_port d;
         opt_path := dest_path d;
         opt_method := req_method req;
         opt_headers := delete "proxy-connection" (headers req) |} in
    (st, [HttpRequest options]).

End WithUrlParse.

Definition not_delim (c : ascii) : bool :=
  negb (Ascii.eqb c "/" || Ascii.eqb c "?" || Ascii.eqb c "#").

Definition not_hash (c : ascii) : bool := negb (Ascii.eqb c "#").

Definition some_nonempty (s : string) : option string :=
  match s with
  | "" => None
  | _ => Some s
  end.

(** [url.parse] on a URL of the shape [scheme://host[:port][/path][?query][#hash]]
    with a lower-case scheme and host and no user information: the shape of
    the request lines used as inputs below. *)
Definition simple_url_parse (u : string) : UrlObject :=
  let '(scheme, rest) := span (fun c => negb (Ascii.eqb c ":")) u in
  match strip_prefix "://" rest with
  | Some r =>
      let '(host, after) := span not_delim r in
      let parts := split ":" host in
      let path := (span not_hash after).1 in
      {| url_protocol := Some (scheme ++ ":")%string;
         url_hostname := some_nonempty (default "" (item parts 0));
         url_port := item parts 1 ≫= some_nonempty;
         url_path :=
           Some (match path with
                 | String "/" _ => path
                 | _ => ("/" ++ path)%string
                 end) |}
  | None =>
      {| url_protocol := None; url_hostname := None; url_port := None;
         url_path := some_nonempty u |}
  end.

(** ** CONNECT tunnels *)

Definition parseConnectUrl (connectUrl : string) : string * string :=
  let parts := split ":" connectUrl in
  (or_str (item parts 0) "", or_str (item parts 1) "443").

Definition established : string :=
  ("HTTP/1.1 200 Connection Established" ++ CRLF ++ CRLF)%string.

(** The tunnel of one CONNECT request. *)
Inductive tunnel :=
  | Connecting (head : string)   (* net.connect called; its callback holds [head] *)
  | Piped                        (* the callback ran: both pipes are set up *)
  | Closed.

(** The logger together with the tunnel a CONNECT request has opened. *)
Record World := {
  logger : Logger;
  tun : tunnel
}.

(** [handleHttpsConnect]: the entry is logged, then the connection to the
    target is started.  [now] is [new Date().toISOString()]. *)
Definition handleHttpsConnect (now : string) (req : IncomingMessage) (head : string)
  (st : Logger) : World * list action :=
  let '(hostname, port) := parseConnectUrl (url req) in
  let st :=
    logRequest
      {| timestamp := now;
         method := "CONNECT";
         hostname := hostname;
         path := "/";
         protocol := HTTPS;
         userAgent := headers req !! "user-agent" |} st in
  ({| logger := st; tun := Connecting head |},
   [NetConnect (or_num (parseInt port) 443) hostname]).

(** The entry [handleHttpsConnect] logs. *)
Definition connect_entry (now : string) (req : IncomingMessage) : LogEntry :=
  {| timestamp := now;
     method := "CONNECT";
     hostname := (parseConnectUrl (url req)).1;
     path := "/";
     protocol := HTTPS;
     userAgent := headers req !! "user-agent" |}.

(** What the two sockets of a tunnel deliver. *)
Inductive event :=
  | ServerConnect                 (* the connect callback of net.connect *)
  | ServerError                   (* 'error' on serverSocket *)
  | ServerData (chunk : string)   (* 'data' on serverSocket *)
  | ServerEnd                     (* the target half-closes *)
  | ClientError                   (* 'error' on clientSocket *)
  | ClientData (chunk : string)   (* 'data' on clientSocket *)
  | ClientEnd.                    (* the client half-closes *)

(** The callbacks [handleHttpsConnect] registers, and the two pipes. *)
Definition step (w : World) (e : event) : World * list action :=
  let close := {| logger := logger w; tun := Closed |} in
  match tun w, e with
  | Connecting head, ServerConnect =>
      ({| logger := logger w; tun := Piped |},
       [ClientWrite established; ServerWrite head])
  | Piped, ServerData chunk => (w, [ClientWrite chunk])
  | Piped, ClientData chunk => (w, [ServerWrite chunk])
  | Piped, ServerEnd => (close, [ClientSocketEnd])
  | Piped, ClientEnd => (close, [ServerSocketEnd])
  | (Connecting _ | Piped), ServerError => (close, [ClientSocketEnd])
  | (Connecting _ | Piped), ClientError => (close, [ServerSocketEnd])
  | _, _ => (w, [])
  end.

Fixpoint run (w : World) (evs : list event) : World * list action :=
  match evs with
  | [] => (w, [])
  | e :: evs' =>
      let '(w1, out1) := step w e in
      let '(w2, out2) := run w1 evs' in
      (w2, (out1 ++ out2)%list)
  end.

(** A CONNECT request and everything its sockets deliver afterwards. *)
Definition connect_session (now : string) (req : IncomingMessage) (head : string)
  (st : Logger) (evs : list event) : World * list action :=
  let '(w, out) := handleHttpsConnect now req head st in
  let '(w', out') := run w evs in
  (w', (out ++ out')%list).

(** ** Statistics *)

(** A [Map<string, number>]: its entries in insertion order. *)
Abbreviation CountMap := (list (string * Z)).

(** [m.get(k)] *)
Fixpoint Map_get (m : CountMap) (k : string) : option Z :=
  match m with
  | [] => None
  | (k', v) :: m' => if String.eqb k' k then Some v else Map_get m' k
  end.

(** [m.set(k, v)]: a key that is present keeps its place, a new key goes to
    the end. *)
Fixpoint Map_set (m : CountMap) (k : string) (v : Z) : CountMap :=
  match m with
  | [] => [(k, v)]
  | (k', v') :: m' =>
      if String.eqb k' k then (k', v) :: m' else (k', v') :: Map_set m' k v
  end.

Record DomainCount := {
  domain : string;
  count : Z
}.

(** [Array.prototype.sort(compare)]: the sort is stable, and for a consistent
    comparison its result is the one stable ordering.  An element goes in
    front of the first element it does not compare greater than. *)
Fixpoint insert {A} (compare : A -> A -> Z) (x : A) (l : list A) : list A :=
  match l with
  | [] => [x]
  | y :: l' =>
      if compare x y <=? 0 then x :: y :: l' else y :: insert compare x l'
  end.

Definition sort {A} (compare : A -> A -> Z) (l : list A) : list A :=
  foldr (insert compare) [] l.

(** [array.slice(0, n)] *)
Definition slice0 {A} (n : nat) (l : list A) : list A := take n l.

Record Stats := {
  totalRequests : nat;
  stat_uniqueDomains : nat;
  topDomains : list DomainCount;
  protocolStats : Z * Z
}.

(** One round of the [forEach] of [getStats] over [domainCounts],
    [httpCount] and [httpsCount]. *)
Definition tally (acc : CountMap * Z * Z) (entry : LogEntry) : CountMap * Z * Z :=
  let '(domainCounts, httpCount, httpsCount) := acc in
  let domainCounts :=
    Map_set domainCounts (hostname entry)
      (or_num (Map_get domainCounts (hostname entry)) 0 + 1) in
  match protocol entry with
  | HTTP => (domainCounts, httpCount + 1, httpsCount)
  | HTTPS => (domainCounts, httpCount, httpsCount + 1)
  end.

(** The two arrow functions of [getStats]: [([domain, count]) => ({ domain,
    count })] and [(a, b) => b.count - a.count]. *)
Definition entry_of (p : string * Z) : DomainCount :=
  let '(domain, count) := p in {| domain := domain; count := count |}.

Definition by_count (a b : DomainCount) : Z := count b - count a.

Definition getStats (st : Logger) : Stats :=
  let '(domainCounts, httpCount, httpsCount) :=
    fold_left tally (logEntries st) ([], 0, 0) in
  let topDomains := slice0 10 (sort by_count (entry_of <$> domainCounts)) in
  {| totalRequests := length (logEntries st);
     stat_uniqueDomains := size (uniqueDomains st);
     topDomains := topDomains;
     protocolStats := (httpCount, httpsCount) |}.

(** The position of the first entry for a host name in the log (the length of
    the log when there is none). *)
Fixpoint first_seen (h : string) (log : list LogEntry) : nat :=
  match log with
  | [] => 0
  | e :: log' => if String.eqb (hostname e) h then 0 else S (first_seen h log')
  end.

(** The number of entries for a host name in the log. *)
Definition frequency (h : string) (log : list LogEntry) : Z :=
  Z.of_nat (length (filter (fun e => hostname e = h) log)).

(** One round of the [forEach] on [domainCounts] alone. *)
Definition bump (m : CountMap) (h : string) : CountMap :=
  Map_set m h (or_num (Map_get m h) 0 + 1).

(** The count of [h] goes up by one. *)
Definition incr (h : string) (p : string * Z) : string * Z :=
  if bool_decide (p.1 = h) then (p.1, p.2 + 1) else p.

(** [domainCounts] when the [forEach] is over. *)
Definition domainCounts (log : list LogEntry) : CountMap :=
  (fold_left tally log ([], 0, 0)).1.1.

(** [a] comes before [b] by descending count, and by first appearance in the
    log among equal counts. *)
Definition ranks_before (log : list LogEntry) (a b : DomainCount) : Prop :=
  count b < count a
  \/ (count a = count b
      /\ (first_seen (domain a) log < first_seen (domain b) log)%nat).

(** A log of six requests to four hosts. *)
Definition sample_entry (h : string) (p : Protocol) : LogEntry :=
  {| timestamp := "2024-01-01T00:00:00.000Z"; method := "GET"; hostname := h;
     path := "/"; protocol := p; userAgent := None |}.

Definition sample_logger : Logger :=
  fold_left (fun st e => logRequest e st)
    [sample_entry "a.example" HTTP; sample_entry "b.example" HTTP;
     sample_entry "c.example" HTTPS; sample_entry "b.example" HTTP;
     sample_entry "c.example" HTTP; sample_entry "d.example" HTTP]
    empty_logger.

(** The distinct host names of the log. *)
Definition logged_hostnames (log : list LogEntry) : gset string :=
  list_to_set (hostname <$> log).

(** ** Ports Node refuses

    [http.request(options)] and [net.connect(port, host)] check the port they
    are given before a socket is opened: a number outside 0..65535 throws
    [ERR_SOCKET_BAD_PORT].  Neither handler catches it, so the calls that
    follow in the handler are not made. *)
Definition validPort (port : Z) : bool := (0 <=? port) && (port <=? 65535).

Definition refused (a : action) : bool :=
  match a with
  | HttpRequest options => negb (validPort (opt_port options))
  | NetConnect port _ => negb (validPort port)
  | _ => false
  end.

(** How the calls of a handler end. *)
Inductive completion :=
  | Completed (done : list action)   (* every call was made *)
  | Threw (done : list action).      (* the calls made before the one that threw *)

Fixpoint perform (out : list action) : completion :=
  match out with
  | [] => Completed []
  | a :: out' =>
      if refused a then Threw []
      else match perform out' with
           | Completed done => Completed (a :: done)
           | Threw done => Threw (a :: done)
           end
  end.

(** ** The answer of the destination

    The callback of [http.request] and the ['error'] listener of [proxyReq]
    in [handleHttpRequest]. *)

(** What the request to the destination delivers. *)
Inductive relay_event :=
  | ProxyResponse (statusCode : Z) (hdrs : gmap string string)  (* the callback *)
  | ProxyData (chunk : string)    (* 'data' on proxyRes *)
  | ProxyEnd                      (* 'end' on proxyRes *)
  | ProxyError.                   (* 'error' on proxyReq *)

(** What goes to the client's response. *)
Inductive reply :=
  | Head (statusCode : Z) (hdrs : gmap string string)  (* res.writeHead(status, headers) *)
  | Body (chunk : string)                              (* a chunk piped to res *)
  | Finish                                             (* res.end() by the pipe *)
  | Fail (a : action).                                 (* the 500 of the error listener *)

(** The response as the handlers leave it.  [res.writeHead] throws
    [ERR_HTTP_HEADERS_SENT] once the headers are out. *)
Inductive relay :=
  | Waiting      (* http.request issued, nothing written to res *)
  | Responding   (* headers written, proxyRes piped to res *)
  | Finished     (* res.end() called *)
  | Thrown.      (* writeHead threw; the exception is uncaught *)

Definition relay_step (r : relay) (e : relay_event) : relay * list reply :=
  match r, e with
  | Waiting, ProxyResponse statusCode hdrs => (Responding, [Head statusCode hdrs])
  | Waiting, ProxyError =>
      (Finished, [Fail (WriteHead 500); Fail (EndResponse "Proxy error")])
  | Responding, ProxyData chunk => (Responding, [Body chunk])
  | Responding, ProxyEnd => (Finished, [Finish])
  | (Responding | Finished), (ProxyResponse _ _ | ProxyError) => (Thrown, [])
  | _, _ => (r, [])
  end.

Fixpoint relay_run (r : relay) (evs : list relay_event) : relay * list reply :=
  match evs with
  | [] => (r, [])
  | e :: evs' =>
      let '(r1, out1) := relay_step r e in
      let '(r2, out2) := relay_run r1 evs' in
      (r2, (out1 ++ out2)%list)
  end.

(** The status lines among the replies. *)
Definition heads (out : list reply) : list Z :=
  omap (fun a => match a with
                 | Head statusCode _ => Some statusCode
                 | Fail (WriteHead statusCode) => Some statusCode
                 | _ => None
                 end) out.

(** ** The server as a whole

    [setupEventHandlers] sends a ['request'] event to [handleHttpRequest] and
    a ['connect'] event to [handleHttpsConnect]; [clearLogs] is public. *)
Inductive call :=
  | Plain (now : string) (req : IncomingMessage)
  | Connect (now : string) (req : IncomingMessage) (head : string)
  | Clear.

Definition serve_one (url_parse : string -> UrlObject) (st : Logger) (c : call)
  : Logger :=
  match c with
  | Plain now req => (handleHttpRequest url_parse now req st).1
  | Connect now req head => logger (handleHttpsConnect now req head st).1
  | Clear => clearLogs st
  end.

(** The logger after a sequence of calls on a fresh [BrowserTrafficLogger]. *)
Definition serve (url_parse : string -> UrlObject) (calls : list call) : Logger :=
  fold_left (serve_one url_parse) calls empty_logger.

(** What the log holds for each protocol tag. *)
Definition well_formed_entry (e : LogEntry) : Prop :=
  match protocol e with
  | HTTP => hostname e <> "" /\ hostname e <> "unknown"
  | HTTPS => method e = "CONNECT" /\ path e = "/"
  end.

(** [c] occurs in [s]. *)
Fixpoint has_char (c : ascii) (s : string) : bool :=
  match s with
  | "" => false
  | String c' s' => Ascii.eqb c' c || has_char c s'
  end.

(** The chunks written to each socket of a tunnel, in order. *)
Definition to_client (out : list action) : list string :=
  omap (fun a => match a with ClientWrite chunk => Some chunk | _ => None end) out.

Definition to_server (out : list action) : list string :=
  omap (fun a => match a with ServerWrite chunk => Some chunk | _ => None end) out.

(** What the two pipes of a tunnel do with a chunk. *)
Definition bridged (e : event) : list action :=
  match e with
  | ServerData chunk => [ClientWrite chunk]
  | ClientData chunk => [ServerWrite chunk]
  | _ => []
  end.

Definition is_chunk (e : event) : bool :=
  match e with
  | ServerData _ | ClientData _ => true
  | _ => false
  end.

(** A log of eleven requests to eleven hosts. *)
Definition crowded_logger : Logger :=
  fold_left (fun st h => logRequest (sample_entry h HTTP) st)
    ["a.example"; "b.example"; "c.example"; "d.example"; "e.example"; "f.example";
     "g.example"; "h.example"; "i.example"; "j.example"; "k.example"]
    empty_logger.

(** What a run of the server keeps true of the logger. *)
Definition consistent (st : Logger) : Prop :=
  uniqueDomains st = logged_hostnames (logEntries st)
  /\ Forall well_formed_entry (logEntries st)
  /\ (logLine <$> logEntries st) `suffix_of` logFile st.

(** The sum of the counts of a list of domains. *)
Definition total_count (l : list DomainCount) : Z :=
  foldr (fun a acc => count a + acc) 0 l.

#[global] Instance Protocol_eq_dec : EqDecision Protocol.
Proof. solve_decision. Defined.

(** The number of entries with a protocol tag. *)
Definition tagged (p : Protocol) (log : list LogEntry) : Z :=
  Z.of_nat (length (filter (fun e => protocol e = p) log)).

End TrafficLogger.

Module SniProxyFacts.

Import SniProxy.
Local Open Scope Z_scope.

(** ** Reading from a buffer *)

Lemma byte_val_range (b : byte) : 0 <= byte_val b < 256.
Proof.
  unfold byte_val. pose proof (Byte.to_N_bounded b). lia.
Qed.

Lemma index_Some data i v :
  index data i = Some v ->
  exists z, i = Int z /\ 0 <= z < Z.of_nat (length data) /\ 0 <= v < 256.
Proof.
  destruct i as [z|]; unfold index; [|discriminate].
  destruct (Z.ltb_spec z 0); [discriminate|].
  destruct (data !! Z.to_nat z) as [b|] eqn:E; [|discriminate].
  intros [= <-]. exists z. apply lookup_lt_Some in E.
  pose proof (byte_val_range b). repeat split; lia.
Qed.

Lemma index_inside data z :
  0 <= z < Z.of_nat (length data) -> exists v, index data (Int z) = Some v.
Proof.
  intros Hz. unfold index. destruct (Z.ltb_spec z 0); [lia|].
  destruct (lookup_lt_is_Some_2 data (Z.to_nat z)) as [b ->]; [lia|].
  eauto.
Qed.

Lemma index_outside data z :
  Z.of_nat (length data) <= z -> index data (Int z) = None.
Proof.
  intros Hz. unfold index. destruct (Z.ltb_spec z 0); [done|].
  rewrite lookup_ge_None_2; [done|lia].
Qed.

Lemma readUInt16BE_Returns data o v :
  readUInt16BE data o = Returns v ->
  exists z, o = Int z /\ 0 <= z /\ z + 2 <= Z.of_nat (length data) /\ 0 <= v < 65536.
Proof.
  unfold readUInt16BE.
  destruct (index data o) as [a|] eqn:Ea; [|discriminate].
  destruct (index data (plus o (Int 1))) as [b|] eqn:Eb; [|discriminate].
  intros [= <-].
  apply index_Some in Ea as (z & -> & Hz & Ha).
  apply index_Some in Eb as (z' & [= <-] & Hz' & Hb).
  exists z. repeat split; lia.
Qed.

Lemma readUInt16BE_inside data z :
  0 <= z -> z + 2 <= Z.of_nat (length data) ->
  exists v, readUInt16BE data (Int z) = Returns v.
Proof.
  intros H0 H2. unfold readUInt16BE.
  destruct (index_inside data z) as [a Ea]; [lia|].
  destruct (index_inside data (z + 1)) as [b Eb]; [lia|].
  change (plus (Int z) (Int 1)) with (Int (z + 1)).
  rewrite Ea, Eb. eauto.
Qed.

Lemma readUInt16BE_outside data z :
  Z.of_nat (length data) < z + 2 -> readUInt16BE data (Int z) = Throws RangeError.
Proof.
  intros Hz. unfold readUInt16BE.
  change (plus (Int z) (Int 1)) with (Int (z + 1)).
  rewrite (index_outside data (z + 1)) by lia.
  by destruct (index data (Int z)).
Qed.

Lemma readUInt16BE_NaN data : readUInt16BE data NaN = Throws RangeError.
Proof. reflexivity. Qed.

Lemma readUInt16BE_no_timeout data o : readUInt16BE data o <> Timeout.
Proof.
  unfold readUInt16BE.
  destruct (index data o); [|discriminate].
  destruct (index data (plus o (Int 1))); discriminate.
Qed.

(** ** The loop terminates *)

Lemma le_true a b :
  le a b = true -> exists x y, a = Int x /\ b = Int y /\ x <= y.
Proof.
  destruct a as [x|], b as [y|]; simpl; try discriminate.
  intros H%Z.leb_le. eauto.
Qed.

(** One [readUInt16BE] of a sequence of reads: it returns, or the whole
    sequence throws. *)
Ltac step_read :=
  match goal with
  | |- context [bind (readUInt16BE ?d ?o) _] =>
      let H := fresh "Hread" in
      let v := fresh "v" in
      destruct (readUInt16BE d o) as [v| |] eqn:H; cbn [bind];
      [ | discriminate | exfalso; exact (readUInt16BE_no_timeout _ _ H) ]
  end.

Lemma scanExtensions_fuel fuel data end_ z :
  (0 < fuel)%nat ->
  Z.of_nat (length data) - z < 4 * Z.of_nat fuel ->
  scanExtensions fuel data end_ (Int z) <> Timeout.
Proof.
  revert z. induction fuel as [|fuel IH]; intros z Hpos Hfuel; [lia|].
  cbn [scanExtensions].
  destruct (le (plus (Int z) (Int 4)) end_ && le (plus (Int z) (Int 4)) (length_of data))
    eqn:Hcond; [|discriminate].
  apply andb_prop in Hcond as [_ Hlen].
  apply le_true in Hlen as (x & y & [= <-] & [= <-] & Hlen).
  step_read. step_read.
  apply readUInt16BE_Returns in Hread0 as (? & _ & _ & _ & HextLen).
  match goal with |- context [if ?c then _ else _] => destruct c end.
  - step_read. step_read. discriminate.
  - apply IH; lia.
Qed.

(** [extractSNI] always ends: it returns or it throws. *)
Theorem extractSNI_total data : extractSNI data <> Timeout.
Proof.
  unfold extractSNI.
  destruct (negb _); [discriminate|].
  destruct (ge _ _); [discriminate|].
  destruct (gt _ _); [discriminate|].
  step_read.
  destruct (gt _ _); [discriminate|].
  step_read.
  apply readUInt16BE_Returns in Hread0 as (z & Hz & Hz0 & Hz2 & _).
  cbn [plus] in *.
  match goal with |- scanExtensions _ _ _ ?i <> _ =>
    replace i with (Int (z + 2)) end.
  - apply scanExtensions_fuel; lia.
  - rewrite Hz. reflexivity.
Qed.

(** *** Reading at a cut of the buffer *)

Lemma byte_val_octet n : 0 <= n < 256 -> byte_val (octet n) = n.
Proof.
  intros Hn. unfold byte_val, octet.
  destruct (Byte.of_N (Z.to_N n)) as [b|] eqn:E; unfold default; cbn [from_option id].
  - apply Byte.to_of_N in E. rewrite E, Z2N.id; lia.
  - apply Byte.of_N_None_iff in E. lia.
Qed.

Lemma index_cut data pre b post z :
  data = pre ++ b :: post -> z = len pre ->
  index data (Int z) = Some (byte_val b).
Proof.
  intros -> ->. unfold index, len. destruct (Z.ltb_spec (Z.of_nat (length pre)) 0); [lia|].
  by rewrite Nat2Z.id, list_lookup_middle.
Qed.

Lemma readUInt16BE_cut data pre b1 b2 post z :
  data = pre ++ b1 :: b2 :: post -> z = len pre ->
  readUInt16BE data (Int z) = Returns (byte_val b1 * 2 ^ 8 + byte_val b2).
Proof.
  intros Hd ->. unfold readUInt16BE. cbn [plus].
  rewrite (index_cut data pre b1 (b2 :: post)) by done.
  rewrite (index_cut data (pre ++ [b1]) b2 post).
  - done.
  - by rewrite Hd, <- app_assoc.
  - unfold len. rewrite length_app. cbn [length]. lia.
Qed.

Lemma readUInt16BE_u16 data pre n post z :
  data = pre ++ u16 n ++ post -> z = len pre -> 0 <= n < 65536 ->
  readUInt16BE data (Int z) = Returns n.
Proof.
  intros Hd Hz Hn. rewrite (readUInt16BE_cut data pre _ _ post z Hd Hz).
  rewrite !byte_val_octet.
  - f_equal. change (2 ^ 8) with 256. pose proof (Z.div_mod n 256). lia.
  - apply Z.mod_pos_bound. lia.
  - split; [apply Z.div_pos; lia | apply Z.div_lt_upper_bound; lia].
Qed.

Lemma slice_cut data pre rest n :
  data = pre ++ rest -> 0 <= n ->
  slice data (Int (len pre)) (Int (len pre + n)) = take (Z.to_nat n) rest.
Proof.
  intros -> Hn. unfold slice, clamp, len. rewrite length_app.
  destruct (Z.ltb_spec (Z.of_nat (length pre)) 0); [lia|].
  destruct (Z.ltb_spec (Z.of_nat (length pre) + n) 0); [lia|].
  rewrite (Z.min_l (Z.of_nat (length pre))) by lia.
  rewrite Nat2Z.id, drop_app_length.
  destruct (Z.le_ge_cases (Z.of_nat (length pre) + n) (Z.of_nat (length pre + length rest))).
  - rewrite Z.min_l by lia. f_equal. lia.
  - rewrite Z.min_r by lia. rewrite !take_ge; [done|lia..].
Qed.

Lemma toString_utf8_ascii b data :
  byte_val b <= 0x7F -> toString_utf8 (b :: data) = byte_val b :: toString_utf8 data.
Proof.
  intros Hb. unfold toString_utf8. cbn [fmap list_fmap utf8_decode]. unfold classify.
  destruct (Z.leb_spec (byte_val b) 0x7F); [|lia].
  cbn [app mbind list_bind]. unfold utf16_units at 1.
  pose proof (byte_val_range b).
  destruct (Z.ltb_spec (byte_val b) 0x10000); [|lia]. reflexivity.
Qed.

(** The first extension has type 0 and fits the buffer: the parser reads the
    name length at offset 5 of the payload and returns the octets from
    offset 7 on. *)
Lemma extractSNI_first_extension data sid cs cm el extLen x sniLen :
  index data (Int 0) = Some 0x16 ->
  index data (Int 43) = Some sid ->
  readUInt16BE data (Int (44 + sid)) = Returns cs ->
  index data (Int (46 + sid + cs)) = Some cm ->
  readUInt16BE data (Int (47 + sid + cs + cm)) = Returns el ->
  4 <= el ->
  readUInt16BE data (Int (49 + sid + cs + cm)) = Returns 0 ->
  readUInt16BE data (Int (51 + sid + cs + cm)) = Returns extLen ->
  53 + sid + cs + cm + extLen <= Z.of_nat (length data) ->
  readUInt16BE data (Int (55 + sid + cs + cm)) = Returns x ->
  readUInt16BE data (Int (58 + sid + cs + cm)) = Returns sniLen ->
  extractSNI data =
  Returns (Some (toString_utf8
                   (slice data (Int (60 + sid + cs + cm))
                      (Int (60 + sid + cs + cm + sniLen))))).
Proof.
  intros H0 H43 Hcs Hcm Hel Hel4 Ht Hl Hfit Hx Hn. unfold extractSNI.
  rewrite H0. cbn [strict_eq negb plus].
  change (22 =? 22) with true. change (0 + 5 + 38) with 43. cbn [negb].
  destruct (index_Some _ _ _ H43) as (? & [= <-] & H43in & _).
  destruct (readUInt16BE_Returns _ _ _ Hcs) as (? & [= <-] & _ & Hcsfit & _).
  destruct (index_Some _ _ _ Hcm) as (? & [= <-] & Hcmin & _).
  destruct (readUInt16BE_Returns _ _ _ Hel) as (? & [= <-] & _ & Helfit & _).
  destruct (readUInt16BE_Returns _ _ _ Hl) as (? & [= <-] & _ & Hlfit & _).
  rewrite H43. cbn [to_number plus length_of ge gt].
  destruct (Z.leb_spec (Z.of_nat (length data)) 43); [lia|].
  replace (43 + (1 + sid)) with (44 + sid) by lia.
  destruct (Z.ltb_spec (Z.of_nat (length data)) (44 + sid + 2)); [lia|].
  rewrite Hcs. cbn [bind plus].
  replace (44 + sid + (2 + cs)) with (46 + sid + cs) by lia.
  rewrite Hcm. cbn [to_number plus gt length_of].
  replace (46 + sid + cs + (1 + cm)) with (47 + sid + cs + cm) by lia.
  destruct (Z.ltb_spec (Z.of_nat (length data)) (47 + sid + cs + cm + 2)); [lia|].
  rewrite Hel. cbn [bind plus].
  replace (47 + sid + cs + cm + 2) with (49 + sid + cs + cm) by lia.
  destruct data as [|b data']; [cbn in H43in; lia|].
  cbn [length scanExtensions]. set (data := b :: data') in *.
  cbn [plus le length_of].
  destruct (Z.leb_spec (49 + sid + cs + cm + 4) (49 + sid + cs + cm + el)); [|lia].
  destruct (Z.leb_spec (49 + sid + cs + cm + 4) (Z.of_nat (length data))); [|lia].
  cbn [andb]. rewrite Ht. cbn [bind].
  replace (49 + sid + cs + cm + 2) with (51 + sid + cs + cm) by lia.
  rewrite Hl. cbn [bind]. change (0 =? 0) with true. cbn [andb].
  destruct (Z.leb_spec (49 + sid + cs + cm + 4 + extLen) (Z.of_nat (length data))); [|lia].
  replace (49 + sid + cs + cm + 4 + 2) with (55 + sid + cs + cm) by lia.
  rewrite Hx. cbn [bind].
  replace (49 + sid + cs + cm + 4 + 5) with (58 + sid + cs + cm) by lia.
  rewrite Hn. cbn [bind].
  replace (49 + sid + cs + cm + 4 + 7) with (60 + sid + cs + cm) by lia.
  reflexivity.
Qed.

(** ** The parser on ClientHello messages *)

(** C1. On a well-formed ClientHello whose server-name extension carries
    ["example.com"] (list length, name type, name length, name), [extractSNI]
    does not return ["example.com"]: it reads the name length two octets too
    far, takes ["ex"] for the length and returns ["ample.com"]. *)
Theorem extractSNI_hello_example_com :
  extractSNI hello_example_com = Returns (Some (str "ample.com")).
Proof. vm_compute. reflexivity. Qed.

(** Whatever the random, the session id, the cipher suites, the compression
    methods and the extensions that follow are, a ClientHello whose first
    extension is the server name ["example.com"] makes [extractSNI] return a
    string that starts with ["ample.com"]. *)
Lemma extractSNI_clientHello_example_com random sid cs cm post :
  length random = 32%nat ->
  len sid < 256 -> len cs < 65536 -> len cm < 256 -> len post + 20 < 65536 ->
  exists rest,
    extractSNI
      (clientHello random sid cs cm (serverName (ascii_bytes "example.com") ++ post))
    = Returns (Some (str "ample.com" ++ rest)).
Proof.
  intros Hr Hsid Hcs Hcm Hpost.
  set (exts := serverName (ascii_bytes "example.com") ++ post).
  set (data := clientHello random sid cs cm exts).
  set (name := ascii_bytes "ample.com").
  assert (Hx : exts =
    u16 0 ++ u16 16 ++ u16 14 ++ u16 0 ++ [octet 11] ++ u16 0x6578 ++ name ++ post).
  { unfold exts, name. vm_compute. reflexivity. }
  assert (Hexts : len exts = 20 + len post).
  { unfold exts, len. rewrite length_app. cbn. lia. }
  assert (0 <= len sid /\ 0 <= len cs /\ 0 <= len cm /\ 0 <= len post)
    as (? & ? & ? & ?) by (unfold len; lia).
  set (hdr := take 11 data).
  set (p1 := hdr ++ random).
  set (p2 := p1 ++ [octet (len sid)] ++ sid).
  set (p3 := p2 ++ u16 (len cs) ++ cs).
  set (p4 := p3 ++ [octet (len cm)] ++ cm).
  set (p5 := p4 ++ u16 (len exts)).
  set (p6 := p5 ++ u16 0).
  set (p7 := p6 ++ u16 16 ++ u16 14).
  set (p8 := p7 ++ u16 0 ++ [octet 11]).
  set (p9 := p8 ++ u16 0x6578).
  assert (Hhdr : length hdr = 11%nat) by reflexivity.
  assert (L1 : len p1 = 43) by (unfold len, p1; rewrite length_app; lia).
  assert (L2 : len p2 = 44 + len sid)
    by (unfold len in *; unfold p2; rewrite !length_app; cbn [length]; lia).
  assert (L3 : len p3 = 46 + len sid + len cs)
    by (unfold len in *; unfold p3; rewrite !length_app; cbn [length u16]; lia).
  assert (L4 : len p4 = 47 + len sid + len cs + len cm)
    by (unfold len in *; unfold p4; rewrite !length_app; cbn [length]; lia).
  assert (L5 : len p5 = 49 + len sid + len cs + len cm)
    by (unfold len in *; unfold p5; rewrite !length_app; cbn [length u16]; lia).
  assert (L6 : len p6 = 51 + len sid + len cs + len cm)
    by (unfold len in *; unfold p6; rewrite !length_app; cbn [length u16]; lia).
  assert (L7 : len p7 = 55 + len sid + len cs + len cm)
    by (unfold len in *; unfold p7; rewrite !length_app; cbn [length u16]; lia).
  assert (L8 : len p8 = 58 + len sid + len cs + len cm)
    by (unfold len in *; unfold p8; rewrite !length_app; cbn [length u16]; lia).
  assert (L9 : len p9 = 60 + len sid + len cs + len cm)
    by (unfold len in *; unfold p9; rewrite !length_app; cbn [length u16]; lia).
  assert (Hdata : data = p5 ++ exts).
  { unfold p5, p4, p3, p2, p1. rewrite <- !app_assoc. reflexivity. }
  assert (Hlen : len data = 69 + len sid + len cs + len cm + len post).
  { rewrite Hdata. unfold len in *. rewrite length_app. lia. }
  assert (C1 : data = p1 ++ octet (len sid) :: sid ++ u16 (len cs) ++ cs
                      ++ [octet (len cm)] ++ cm ++ u16 (len exts) ++ exts).
  { rewrite Hdata. unfold p5, p4, p3, p2. rewrite <- !app_assoc. reflexivity. }
  assert (C2 : data = p2 ++ u16 (len cs) ++ cs ++ [octet (len cm)] ++ cm
                      ++ u16 (len exts) ++ exts).
  { rewrite Hdata. unfold p5, p4, p3. rewrite <- !app_assoc. reflexivity. }
  assert (C3 : data = p3 ++ octet (len cm) :: cm ++ u16 (len exts) ++ exts).
  { rewrite Hdata. unfold p5, p4. rewrite <- !app_assoc. reflexivity. }
  assert (C4 : data = p4 ++ u16 (len exts) ++ exts).
  { rewrite Hdata. unfold p5. rewrite <- !app_assoc. reflexivity. }
  assert (C5 : data = p5 ++ u16 0 ++ u16 16 ++ u16 14 ++ u16 0 ++ [octet 11]
                      ++ u16 0x6578 ++ name ++ post).
  { rewrite <- Hx. exact Hdata. }
  assert (C6 : data = p6 ++ u16 16 ++ u16 14 ++ u16 0 ++ [octet 11]
                      ++ u16 0x6578 ++ name ++ post).
  { rewrite C5 at 1. unfold p6. rewrite <- !app_assoc. reflexivity. }
  assert (C7 : data = p7 ++ u16 0 ++ [octet 11] ++ u16 0x6578 ++ name ++ post).
  { rewrite C6 at 1. unfold p7. rewrite <- !app_assoc. reflexivity. }
  assert (C8 : data = p8 ++ u16 0x6578 ++ name ++ post).
  { rewrite C7 at 1. unfold p8. rewrite <- !app_assoc. reflexivity. }
  assert (C9 : data = p9 ++ name ++ post).
  { rewrite C8 at 1. unfold p9. rewrite <- !app_assoc. reflexivity. }
  eexists.
  rewrite (extractSNI_first_extension data (len sid) (len cs) (len cm) (len exts) 16 0 0x6578).
  - rewrite <- L9. rewrite (slice_cut data p9 (name ++ post) _ C9) by lia.
    rewrite take_app_ge by (cbn; lia).
    unfold name. change (ascii_bytes "ample.com") with
      ["a"; "m"; "p"; "l"; "e"; "."; "c"; "o"; "m"]%byte.
    cbn [app]. rewrite !toString_utf8_ascii by (by vm_compute). reflexivity.
  - reflexivity.
  - rewrite (index_cut _ _ _ _ _ C1) by lia. by rewrite byte_val_octet by lia.
  - apply (readUInt16BE_u16 _ _ _ _ _ C2); lia.
  - rewrite (index_cut _ _ _ _ _ C3) by lia. by rewrite byte_val_octet by lia.
  - apply (readUInt16BE_u16 _ _ _ _ _ C4); lia.
  - lia.
  - apply (readUInt16BE_u16 _ _ _ _ _ C5); lia.
  - apply (readUInt16BE_u16 _ _ _ _ _ C6); lia.
  - fold (len data). lia.
  - apply (readUInt16BE_u16 _ _ _ _ _ C7); lia.
  - apply (readUInt16BE_u16 _ _ _ _ _ C8); lia.
Qed.

(** When the cipher-suite list announces more octets than the buffer holds,
    [data[i]] is [undefined], [i] becomes [NaN], the check [i + 2 >
    data.length] is false and [readUInt16BE] throws. *)
Lemma extractSNI_cipher_overrun data sid cs :
  index data (Int 0) = Some 0x16 ->
  index data (Int 43) = Some sid ->
  readUInt16BE data (Int (44 + sid)) = Returns cs ->
  Z.of_nat (length data) <= 46 + sid + cs ->
  extractSNI data = Throws RangeError.
Proof.
  intros H0 H43 Hcs Hlen. unfold extractSNI.
  rewrite H0. cbn [strict_eq negb plus].
  change (22 =? 22) with true. change (0 + 5 + 38) with 43. cbn [negb].
  destruct (index_Some _ _ _ H43) as (? & [= <-] & Hin & _).
  destruct (readUInt16BE_Returns _ _ _ Hcs) as (? & [= <-] & _ & Hfit & _).
  rewrite H43. cbn [to_number plus length_of ge gt].
  destruct (Z.leb_spec (Z.of_nat (length data)) 43); [lia|].
  replace (43 + (1 + sid)) with (44 + sid) by lia.
  destruct (Z.ltb_spec (Z.of_nat (length data)) (44 + sid + 2)); [lia|].
  rewrite Hcs. cbn [bind plus].
  rewrite index_outside by lia. reflexivity.
Qed.

(** C2. On a buffer cut inside the cipher-suite list, [extractSNI] does not
    return "no hostname": it throws a [RangeError]. *)
Theorem extractSNI_hello_truncated :
  extractSNI hello_truncated = Throws RangeError.
Proof. vm_compute. reflexivity. Qed.

(** The reads inside the server-name branch are not guarded either: an
    extension of type 0 with an empty payload at the end of the buffer makes
    [readUInt16BE(i + 2)] throw. *)
Example extractSNI_hello_empty_server_name :
  extractSNI hello_empty_server_name = Throws RangeError.
Proof. vm_compute. reflexivity. Qed.

(** ** The connection handler *)

Lemma blocked_cases sni :
  sni ∈ BLOCKED_DOMAINS -> sni = str "www.facebook.com" \/ sni = str "example.com".
Proof. unfold BLOCKED_DOMAINS. set_solver. Qed.

Lemma blocked_truthy sni : sni ∈ BLOCKED_DOMAINS -> truthy (Some sni) = true.
Proof. intros [-> | ->]%blocked_cases; reflexivity. Qed.

Lemma no_upstream_no_writes tr :
  Forall (fun a => touches_upstream a = false) tr -> upstream_writes tr = [].
Proof.
  induction 1 as [|a tr Ha _ IH]; [done|].
  unfold upstream_writes in *. cbn [omap list_omap].
  destruct a; try discriminate; exact IH.
Qed.

(** Without a listener, and with no upstream socket or one that is gone,
    nothing touches an upstream. *)
Lemma run_no_upstream live r evs :
  r = NoUpstream \/ r = Gone ->
  Forall (fun a => touches_upstream a = false)
    (run (Running {| listening := false; client_live := live; remote := r |}) evs).2.
Proof.
  intros Hr. revert live.
  induction evs as [|e evs IH]; intros live; cbn [run]; [constructor|].
  destruct Hr as [-> | ->], e; cbn [step listening remote client_live];
    match goal with
    | |- context [run (Running {| listening := false; client_live := ?l;
                                  remote := ?r |}) evs] =>
        specialize (IH l);
        destruct (run (Running {| listening := false; client_live := l;
                                  remote := r |}) evs)
    end; cbn [snd app] in *; auto.
Qed.

(** When [extractSNI] throws, the exception leaves the listener: the process
    ends and does nothing more. *)
Lemma throw_ends_process data e evs :
  extractSNI data = Throws e -> run accepted (ClientData data :: evs) = (Crashed, []).
Proof.
  intros Hthrow. unfold accepted. cbn [run step listening]. unfold onData.
  rewrite Hthrow.
  assert (Hdead : run Crashed evs = (Crashed, [])).
  { induction evs as [|e' evs IH]; [done|]. cbn [run step]. by rewrite IH. }
  by rewrite Hdead.
Qed.

(** C3. When the first chunk yields a blocked host name, the client socket is
    ended, no upstream connection is opened and nothing is ever written to an
    upstream socket, whatever happens afterwards. *)
Theorem blocked_sni_never_reaches_upstream data sni evs :
  extractSNI data = Returns (Some sni) ->
  sni ∈ BLOCKED_DOMAINS ->
  (exists rest,
      trace (ClientData data :: evs) =
      ConsoleLog (str "Blocked: " ++ sni) :: ClientSocketEnd :: rest)
  /\ Forall (fun a => touches_upstream a = false) (trace (ClientData data :: evs))
  /\ upstream_writes (trace (ClientData data :: evs)) = [].
Proof.
  intros Hsni Hblocked.
  assert (Htr : trace (ClientData data :: evs) =
                ConsoleLog (str "Blocked: " ++ sni) :: ClientSocketEnd ::
                (run (Running {| listening := false; client_live := false;
                                 remote := NoUpstream |}) evs).2).
  { unfold trace, accepted. cbn [run step listening]. unfold onData.
    rewrite Hsni, (blocked_truthy _ Hblocked). unfold has. cbn [or_empty default].
    rewrite bool_decide_eq_true_2 by done. cbn [andb].
    by destruct (run _ evs). }
  pose proof (run_no_upstream false NoUpstream evs (or_introl eq_refl)) as Hrest.
  assert (Hall : Forall (fun a => touches_upstream a = false)
                   (trace (ClientData data :: evs))).
  { rewrite Htr. repeat constructor. exact Hrest. }
  split; [rewrite Htr; eauto|]. split; [exact Hall|].
  by apply no_upstream_no_writes.
Qed.

Lemma blocked_sni_never_reaches_upstream_witness :
  (exists rest,
      trace (ClientData hello_shifted :: [RemoteConnect; ClientData hello_shifted; ClientError]) =
      ConsoleLog (str "Blocked: " ++ str "example.com") :: ClientSocketEnd :: rest)
  /\ Forall (fun a => touches_upstream a = false)
       (trace (ClientData hello_shifted :: [RemoteConnect; ClientData hello_shifted; ClientError]))
  /\ upstream_writes
       (trace (ClientData hello_shifted :: [RemoteConnect; ClientData hello_shifted; ClientError])) = [].
Proof.
  apply (blocked_sni_never_reaches_upstream hello_shifted (str "example.com")).
  - vm_compute. reflexivity.
  - apply elem_of_union_r, elem_of_singleton. reflexivity.
Defined.

(** While the connection to the upstream is pending, the first thing written
    to it, if anything, is the chunk the callback holds. *)
Lemma pending_writes data live evs :
  let tr := (run (Running {| listening := false; client_live := live;
                             remote := Pending data |}) evs).2 in
  upstream_writes tr = [] \/ exists rest, upstream_writes tr = data :: rest.
Proof.
  revert live. induction evs as [|e evs IH]; intros live; cbn [run]; [by left|].
  destruct e; cbn [step listening remote client_live];
    try (specialize (IH live);
         destruct (run (Running {| listening := false; client_live := live;
                                   remote := Pending data |}) evs);
         exact IH).
  - specialize (IH false). destruct (run _ evs). exact IH.
  - specialize (IH false). destruct (run _ evs). exact IH.
  - destruct (run _ evs) as [p tr]. right. cbn [snd app]. unfold upstream_writes.
    cbn [omap list_omap]. eauto.
  - pose proof (run_no_upstream false Gone evs (or_intror eq_refl)) as Hq.
    destruct (run _ evs) as [p tr]. left. cbn [snd app] in *.
    apply no_upstream_no_writes. by repeat constructor.
Qed.

(** Once both pipes are set up, every chunk of either side goes to the other
    side as it is. *)
Lemma run_piped flow :
  Forall (fun e => is_data e = true) flow ->
  (run (Running {| listening := false; client_live := true; remote := Open |}) flow).2
  = flow ≫= piped.
Proof.
  induction 1 as [|e flow He _ IH]; [done|].
  cbn [run]. destruct e; try discriminate; cbn [step listening remote client_live];
    destruct (run _ flow); cbn [snd] in *; by rewrite IH.
Qed.

(** A run over two lists of events is the run over the first, then the run
    over the second from where the first one ended. *)
Lemma run_app p evs1 evs2 :
  run p (evs1 ++ evs2) =
  ((run (run p evs1).1 evs2).1, (run p evs1).2 ++ (run (run p evs1).1 evs2).2).
Proof.
  revert p. induction evs1 as [|e evs1 IH]; intros p.
  - cbn [app run fst snd]. by destruct (run p evs2).
  - cbn [app run]. destruct (step p e) as [p1 out1]. rewrite IH.
    destruct (run p1 evs1) as [p2 out2]. cbn [fst snd].
    destruct (run p2 evs2). cbn [fst snd]. by rewrite app_assoc.
Qed.

(** While the connection to the upstream is pending, no event of the client
    socket changes what the callback of [net.connect] holds, and none writes
    to the upstream. *)
Lemma pending_client_events data live before :
  Forall (fun e => is_client e = true) before ->
  exists live' out,
    run (Running {| listening := false; client_live := live;
                    remote := Pending data |}) before
    = (Running {| listening := false; client_live := live';
                  remote := Pending data |}, out)
    /\ upstream_writes out = [].
Proof.
  intros Hbefore. revert live.
  induction Hbefore as [|e before He _ IH]; intros live.
  - by exists live, [].
  - cbn [run]. destruct e; try discriminate He;
      cbn [step listening remote client_live].
    + destruct (IH live) as (live' & out & -> & Hout). by exists live', out.
    + destruct (IH false) as (live' & out & -> & Hout). by exists live', out.
    + destruct (IH false) as (live' & out & -> & Hout).
      exists live', (ConsoleError (str "Client socket error:") :: out).
      split; [done|]. exact Hout.
Qed.

(** A chunk the client sends while the connection to the upstream is pending
    changes nothing and is passed on to nobody. *)
Lemma pending_client_data data live early :
  Forall (fun e => is_client_data e = true) early ->
  run (Running {| listening := false; client_live := live;
                  remote := Pending data |}) early
  = (Running {| listening := false; client_live := live;
                remote := Pending data |}, []).
Proof.
  induction 1 as [|e early He _ IH]; [done|].
  cbn [run]. destruct e; try discriminate He.
  cbn [step listening remote client_live]. by rewrite IH.
Qed.

(** C4. When the first chunk yields no blocked host name, the proxy connects
    to port 443 of the name (of [''] when there is none), and the first chunk
    is the first thing written to the upstream, if anything is.  Once the
    connection is made the first chunk is written, whatever the client socket
    did in the meantime (chunks, its end, an error); when the client only
    sent chunks in the meantime, these are passed on to nobody, the first
    chunk is written once, and from then on the chunks of both sides are
    passed on unchanged. *)
Theorem unblocked_first_chunk_goes_first data sni evs before early flow :
  extractSNI data = Returns sni ->
  (forall h, sni = Some h -> h ∉ BLOCKED_DOMAINS) ->
  Forall (fun e => is_client e = true) before ->
  Forall (fun e => is_client_data e = true) early ->
  Forall (fun e => is_data e = true) flow ->
  (exists rest,
      trace (ClientData data :: evs) = NetConnect 443 (or_empty sni) :: rest)
  /\ (upstream_writes (trace (ClientData data :: evs)) = []
      \/ exists rest, upstream_writes (trace (ClientData data :: evs)) = data :: rest)
  /\ (exists rest,
         upstream_writes (trace (ClientData data :: before ++ RemoteConnect :: evs))
         = data :: rest)
  /\ trace (ClientData data :: early ++ RemoteConnect :: flow) =
     NetConnect 443 (or_empty sni) :: RemoteWrite data :: (flow ≫= piped).
Proof.
  intros Hsni Hfree Hbefore Hearly Hflow.
  assert (Hgo : truthy sni && has (or_empty sni) = false).
  { destruct sni as [h|]; [|done]. cbn [or_empty default]. unfold has.
    rewrite bool_decide_eq_false_2 by eauto. apply andb_false_r. }
  assert (Hstep : forall evs',
    trace (ClientData data :: evs') =
    NetConnect 443 (or_empty sni)
    :: (run (Running {| listening := false; client_live := true;
                        remote := Pending data |}) evs').2).
  { intros evs'. unfold trace, accepted. cbn [run step listening client_live].
    unfold onData. rewrite Hsni, Hgo. cbn [client_live]. by destruct (run _ evs'). }
  split; [rewrite Hstep; eauto|]. split; [|split].
  - rewrite Hstep. pose proof (pending_writes data true evs) as Hp.
    unfold upstream_writes in *. cbn [omap list_omap]. exact Hp.
  - rewrite Hstep, run_app.
    destruct (pending_client_events data true before Hbefore)
      as (live' & out & -> & Hout).
    cbn [fst snd run step listening remote client_live].
    destruct (run _ evs) as [p tr]. cbn [snd].
    unfold upstream_writes in *. cbn [omap list_omap].
    rewrite omap_app, Hout. cbn [app omap list_omap]. eauto.
  - rewrite Hstep, run_app, (pending_client_data data true early Hearly).
    cbn [fst snd app run step listening remote client_live].
    pose proof (run_piped flow Hflow) as Hp.
    destruct (run _ flow). cbn [snd app] in *. by rewrite Hp.
Qed.

Lemma unblocked_first_chunk_goes_first_witness :
  (exists rest,
      trace (ClientData hello_example_com :: [ClientData [x01]; RemoteConnect; ClientData [x02]]) =
      NetConnect 443 (str "ample.com") :: rest)
  /\ (upstream_writes
        (trace (ClientData hello_example_com :: [ClientData [x01]; RemoteConnect; ClientData [x02]])) = []
      \/ exists rest,
          upstream_writes
            (trace (ClientData hello_example_com :: [ClientData [x01]; RemoteConnect; ClientData [x02]])) =
          hello_example_com :: rest)
  /\ (exists rest,
         upstream_writes
           (trace (ClientData hello_example_com
                   :: [ClientData [x04]; ClientError; ClientData [x05]]
                   ++ RemoteConnect :: [ClientData [x01]; RemoteConnect; ClientData [x02]]))
         = hello_example_com :: rest)
  /\ trace (ClientData hello_example_com
            :: [ClientData [x06]; ClientData [x07]]
            ++ RemoteConnect :: [ClientData [x02]; RemoteData [x03]]) =
     NetConnect 443 (str "ample.com") :: RemoteWrite hello_example_com
     :: ([ClientData [x02]; RemoteData [x03]] ≫= piped).
Proof.
  apply (unblocked_first_chunk_goes_first hello_example_com (Some (str "ample.com"))).
  - vm_compute. reflexivity.
  - intros h [= <-] [H | H]%blocked_cases; discriminate H.
  - repeat constructor.
  - repeat constructor.
  - repeat constructor.
Defined.

End SniProxyFacts.

Module TrafficLoggerFacts.

Import TrafficLogger.
Local Open Scope string_scope.
Local Open Scope list_scope.
Local Open Scope Z_scope.

(** ** Destination resolution *)

(** An absolute URI without a port: [reqUrl.port || "80"] is ["80"],
    [parseInt] gives 80, and the scheme is never looked at. *)
Lemma resolve_absolute_without_port url_parse req :
  startsWith (url req) "http://" || startsWith (url req) "https://" = true ->
  url_port (url_parse (url req)) = None ->
  dest_port (resolve url_parse req) = 80.
Proof.
  intros Habs Hport. unfold resolve. rewrite Habs. cbn [dest_port].
  rewrite Hport. reflexivity.
Qed.

(** C5. For the request line [GET https://example.com/], an absolute URI
    with scheme https and no port, the resolved port is 80, not 443. *)
Theorem resolve_https_default_port :
  resolve simple_url_parse (request "GET" "https://example.com/" ∅) =
  {| dest_hostname := "example.com"; dest_path := "/"; dest_port := 80 |}.
Proof. vm_compute. reflexivity. Qed.

(** The port 443 is reached only through a port that [parseInt] turns into
    0 or [NaN]. *)
Example resolve_https_port_zero :
  dest_port (resolve simple_url_parse (request "GET" "https://example.com:0/" ∅)) = 443.
Proof. vm_compute. reflexivity. Qed.

Example resolve_http_default_port :
  dest_port (resolve simple_url_parse (request "GET" "http://example.com/" ∅)) = 80.
Proof. vm_compute. reflexivity. Qed.

(** The pattern of the fallback branch starts with the two prefixes the
    first branch tests for. *)
Lemma strip_prefix_Some p s r : strip_prefix p s = Some r -> String.prefix p s = true.
Proof. unfold strip_prefix. by destruct (String.prefix p s). Qed.

Lemma matchUrl_absolute s r :
  matchUrl s = Some r ->
  startsWith s "http://" || startsWith s "https://" = true.
Proof.
  unfold matchUrl, startsWith.
  destruct (strip_prefix "https://" s) eqn:E1.
  - apply strip_prefix_Some in E1 as ->. intros _. apply orb_true_r.
  - destruct (strip_prefix "http://" s) eqn:E2; [|discriminate].
    apply strip_prefix_Some in E2 as ->. done.
Qed.

(** A request with neither an absolute URI nor a [Host] header resolves to no
    host name: the fallback pattern cannot match it. *)
Lemma resolve_nothing url_parse req :
  startsWith (url req) "http://" || startsWith (url req) "https://" = false ->
  headers req !! "host" = None ->
  dest_hostname (resolve url_parse req) = "".
Proof.
  intros Habs Hhost. unfold resolve. rewrite Habs, Hhost.
  destruct (matchUrl (url req)) as [[g1 g2]|] eqn:E; [|done].
  apply matchUrl_absolute in E. congruence.
Qed.

(** ** Rejected requests *)



(** C10. A plain request whose resolved host name is the string ["unknown"]
    is answered like an unresolved one: status 400, nothing forwarded, nothing
    logged. *)
Theorem unknown_hostname_is_rejected url_parse now req st :
  dest_hostname (resolve url_parse req) = "unknown" ->
  handleHttpRequest url_parse now req st = (st, [WriteHead 400; EndResponse bad_request]).
Proof.
  intros H. unfold handleHttpRequest. rewrite H. reflexivity.
Qed.

Lemma unknown_hostname_is_rejected_witness :
  handleHttpRequest simple_url_parse "2024-01-01T00:00:00.000Z"
    (request "GET" "/index.html" {[ "host" := "unknown" ]}) empty_logger
  = (empty_logger, [WriteHead 400; EndResponse bad_request]).
Proof.
  apply (unknown_hostname_is_rejected simple_url_parse).
  vm_compute. reflexivity.
Defined.

(** Any other host name is logged once and forwarded. *)
Lemma resolved_request_is_logged url_parse now req st :
  dest_hostname (resolve url_parse req) <> "" ->
  dest_hostname (resolve url_parse req) <> "unknown" ->
  exists options,
    handleHttpRequest url_parse now req st =
    (logRequest
       {| timestamp := now;
          method := req_method req;
          hostname := dest_hostname (resolve url_parse req);
          path := dest_path (resolve url_parse req);
          protocol := HTTP;
          userAgent := headers req !! "user-agent" |} st,
     [HttpRequest options])
    /\ opt_headers options !! "proxy-connection" = None.
Proof.
  intros H1 H2. unfold handleHttpRequest.
  apply String.eqb_neq in H1, H2. rewrite H1, H2. cbn [orb].
  eexists. split; [reflexivity|]. cbn [opt_headers]. apply lookup_delete_eq.
Qed.

(** ** CONNECT tunnels *)

Lemma step_logger w e : logger (step w e).1 = logger w.
Proof. unfold step. destruct (tun w), e; reflexivity. Qed.

Lemma run_logger w evs : logger (run w evs).1 = logger w.
Proof.
  revert w. induction evs as [|e evs IH]; intros w; cbn [run]; [done|].
  pose proof (step_logger w e) as Hs. destruct (step w e) as [w1 out1].
  specialize (IH w1). destruct (run w1 evs) as [w2 out2].
  cbn [fst] in *. congruence.
Qed.

(** C6, as the code has it. A CONNECT request appends exactly one entry, with
    method ["CONNECT"], when the request is handled and before the connection
    to the target is attempted; nothing the sockets deliver afterwards
    (connect, failure, data) adds or removes an entry. *)
Theorem connect_logs_once_at_request now req head st evs :
  logEntries (logger (handleHttpsConnect now req head st).1)
  = (logEntries st ++ [connect_entry now req])%list
  /\ logEntries (logger (connect_session now req head st evs).1)
     = (logEntries st ++ [connect_entry now req])%list.
Proof.
  assert (H : logEntries (logger (handleHttpsConnect now req head st).1)
              = (logEntries st ++ [connect_entry now req])%list).
  { unfold handleHttpsConnect, connect_entry.
    by destruct (parseConnectUrl (url req)). }
  split; [exact H|].
  unfold connect_session.
  destruct (handleHttpsConnect now req head st) as [w out].
  pose proof (run_logger w evs) as Hr.
  destruct (run w evs) as [w' out']. cbn [fst] in *. congruence.
Qed.

(** C6, as stated, fails: the connection to the target fails, no tunnel is
    established, and the log holds the CONNECT entry all the same. *)
Lemma connect_logged_though_upstream_fails :
  (connect_session "2024-01-01T00:00:00.000Z" (request "CONNECT" "example.com:443" ∅) ""
     empty_logger [ServerError]).2
  = [NetConnect 443 "example.com"; ClientSocketEnd]
  /\ method <$>
       logEntries
         (logger
            (connect_session "2024-01-01T00:00:00.000Z"
               (request "CONNECT" "example.com:443" ∅) "" empty_logger [ServerError]).1)
     = ["CONNECT"].
Proof. vm_compute. done. Qed.

(** ** Statistics *)

Section Stats.

Implicit Types (log : list LogEntry) (m : CountMap) (h k : string).

(** *** First appearance and frequency *)

Lemma first_seen_lt h log :
  h ∈ hostname <$> log -> (first_seen h log < length log)%nat.
Proof.
  induction log as [|e log IH]; cbn [first_seen fmap list_fmap length].
  - intros []%elem_of_nil.
  - intros Hin. destruct (String.eqb_spec (hostname e) h) as [|Hne]; [lia|].
    apply elem_of_cons in Hin as [->|Hin]; [done|]. apply IH in Hin. lia.
Qed.

Lemma first_seen_absent h log :
  h ∉ hostname <$> log -> first_seen h log = length log.
Proof.
  induction log as [|e log IH]; cbn [first_seen fmap list_fmap length]; [done|].
  intros Hin. apply not_elem_of_cons in Hin as [Hne Hin].
  destruct (String.eqb_spec (hostname e) h) as [|_]; [done|]. by rewrite IH.
Qed.

Lemma first_seen_app h log log' :
  h ∈ hostname <$> log -> first_seen h (log ++ log') = first_seen h log.
Proof.
  induction log as [|e log IH]; cbn [first_seen fmap list_fmap app].
  - intros []%elem_of_nil.
  - intros Hin. destruct (String.eqb_spec (hostname e) h) as [|Hne]; [done|].
    apply elem_of_cons in Hin as [->|Hin]; [done|]. by rewrite IH.
Qed.

Lemma first_seen_snoc_new e log :
  hostname e ∉ hostname <$> log ->
  first_seen (hostname e) (log ++ [e]) = length log.
Proof.
  induction log as [|e' log IH]; cbn [first_seen fmap list_fmap app length].
  - intros _. by rewrite String.eqb_refl.
  - intros Hin. apply not_elem_of_cons in Hin as [Hne Hin].
    destruct (String.eqb_spec (hostname e') (hostname e)) as [|_]; [done|].
    by rewrite IH.
Qed.

Lemma frequency_snoc h log e :
  frequency h (log ++ [e]) =
  frequency h log + (if bool_decide (hostname e = h) then 1 else 0).
Proof.
  unfold frequency. rewrite filter_app, length_app.
  rewrite filter_cons, filter_nil. case_bool_decide; case_decide; try done;
    cbn [length]; lia.
Qed.

Lemma frequency_absent h log : h ∉ hostname <$> log -> frequency h log = 0.
Proof.
  unfold frequency. induction log as [|e log IH]; [done|].
  cbn [fmap list_fmap]. intros Hin. apply not_elem_of_cons in Hin as [Hne Hin].
  rewrite filter_cons. case_decide; [done|]. by apply IH.
Qed.

(** *** The map of counts *)

Lemma bump_new m h : h ∉ m.*1 -> bump m h = m ++ [(h, 1)].
Proof.
  unfold bump. induction m as [|[k v] m IH]; cbn [Map_get Map_set fmap list_fmap fst app].
  - done.
  - intros Hin. apply not_elem_of_cons in Hin as [Hne Hin].
    destruct (String.eqb_spec k h) as [|_]; [done|]. by rewrite IH.
Qed.

Lemma incr_other m h : h ∉ m.*1 -> incr h <$> m = m.
Proof.
  induction m as [|[k v] m IH]; cbn [fmap list_fmap fst]; [done|].
  intros Hin. apply not_elem_of_cons in Hin as [Hne Hin].
  unfold incr at 1. cbn [fst snd]. rewrite bool_decide_eq_false_2 by done.
  by rewrite IH.
Qed.

Lemma or_num_0 z : or_num (Some z) 0 = z.
Proof. unfold or_num. destruct (Z.eqb_spec z 0); congruence. Qed.

Lemma bump_old m h : h ∈ m.*1 -> NoDup m.*1 -> bump m h = incr h <$> m.
Proof.
  unfold bump. induction m as [|[k v] m IH]; cbn [Map_get Map_set fmap list_fmap fst].
  - intros []%elem_of_nil.
  - intros Hin Hnd. apply NoDup_cons in Hnd as [Hk Hnd].
    unfold incr at 1. cbn [fst snd].
    destruct (String.eqb_spec k h) as [->|Hne].
    + rewrite bool_decide_eq_true_2 by done. rewrite or_num_0.
      by rewrite incr_other.
    + rewrite bool_decide_eq_false_2 by done.
      apply elem_of_cons in Hin as [->|Hin]; [done|]. by rewrite IH.
Qed.

Lemma incr_keys m h : (incr h <$> m).*1 = m.*1.
Proof.
  rewrite <- list_fmap_compose. apply list_fmap_ext. intros _ [k v] _.
  unfold incr, compose. by case_bool_decide.
Qed.

Lemma tally_counts acc e : (tally acc e).1.1 = bump acc.1.1 (hostname e).
Proof. destruct acc as [[m a] b]. unfold tally. by destruct (protocol e). Qed.

Lemma domainCounts_snoc log e :
  domainCounts (log ++ [e]) = bump (domainCounts log) (hostname e).
Proof.
  unfold domainCounts. rewrite fold_left_app. cbn [fold_left]. apply tally_counts.
Qed.

Lemma StronglySorted_NoDup_lt (f : string -> nat) (l : list string) :
  StronglySorted (fun a b => (f a < f b)%nat) l -> NoDup l.
Proof.
  induction 1 as [|x l _ IH Hx]; constructor; [|done].
  intros Hin. rewrite Forall_forall in Hx. specialize (Hx _ Hin). lia.
Qed.

Lemma StronglySorted_change {A} (R R' : relation A) (l : list A) :
  (forall x y, x ∈ l -> y ∈ l -> R x y -> R' x y) ->
  StronglySorted R l -> StronglySorted R' l.
Proof.
  intros HR Hs. induction Hs as [|x l _ IH Hx]; constructor.
  - apply IH. intros a b Ha Hb. apply HR; by right.
  - rewrite Forall_forall in *. intros y Hy. apply HR; [by left|by right|auto].
Qed.

(** After the [forEach], the keys of [domainCounts] are the logged host
    names in the order of their first appearance, each with its frequency. *)
Lemma domainCounts_spec log :
  StronglySorted (fun a b => (first_seen a log < first_seen b log)%nat)
    (domainCounts log).*1
  /\ (forall k, k ∈ (domainCounts log).*1 <-> k ∈ hostname <$> log)
  /\ Forall (fun p => p.2 = frequency p.1 log) (domainCounts log).
Proof.
  induction log as [|e log (Hs & Hk & Hf)] using rev_ind.
  { split; [constructor|]. split; [done|constructor]. }
  rewrite domainCounts_snoc. set (m := domainCounts log) in *.
  pose proof (StronglySorted_NoDup_lt _ _ Hs) as Hnd.
  assert (Hkeep : StronglySorted
            (fun a b => (first_seen a (log ++ [e]) < first_seen b (log ++ [e]))%nat) m.*1).
  { eapply StronglySorted_change; [|exact Hs].
    intros x y Hx%Hk Hy%Hk. by rewrite !first_seen_app. }
  assert (Hfreq : Forall (fun p => p.1 <> hostname e -> p.2 = frequency p.1 (log ++ [e])) m).
  { eapply Forall_impl; [exact Hf|]. intros [k v] Hv Hne. cbn [fst snd] in *.
    rewrite frequency_snoc, bool_decide_eq_false_2 by done. lia. }
  destruct (decide (hostname e ∈ m.*1)) as [Hin|Hin].
  - rewrite bump_old by done. rewrite incr_keys.
    split; [exact Hkeep|]. split.
    + intros k. rewrite fmap_app, elem_of_app, Hk. split; [by left|].
      intros [Hx|Hx]; [done|]. cbn in Hx. apply list_elem_of_singleton in Hx as ->.
      by apply Hk.
    + rewrite Forall_fmap. rewrite Forall_forall in Hf, Hfreq. apply Forall_forall.
      intros [k v] Hp. unfold compose, incr. cbn [fst snd].
      case_bool_decide as Hkh.
      * cbn [fst snd]. rewrite frequency_snoc, bool_decide_eq_true_2 by done.
        specialize (Hf _ Hp). cbn [fst snd] in Hf. lia.
      * apply (Hfreq _ Hp). cbn [fst]. congruence.
  - rewrite bump_new by done. rewrite fmap_app. cbn [fmap list_fmap fst].
    assert (Hnew : hostname e ∉ hostname <$> log) by (by rewrite <- Hk).
    split; [|split].
    + apply StronglySorted_app_2; [|exact Hkeep|repeat constructor].
      intros x y Hx%Hk Hy. apply list_elem_of_singleton in Hy as ->.
      rewrite first_seen_app, first_seen_snoc_new by done. by apply first_seen_lt.
    + intros k. rewrite fmap_app, !elem_of_app, Hk. cbn [fmap list_fmap].
      by rewrite !list_elem_of_singleton.
    + apply Forall_app. split.
      * rewrite Forall_forall in Hfreq. apply Forall_forall. intros [k v] Hp.
        apply (Hfreq _ Hp). cbn [fst]. intros ->. apply Hin.
        apply list_elem_of_fmap. by exists (hostname e, v).
      * repeat constructor. cbn [fst snd].
        rewrite frequency_snoc, frequency_absent, bool_decide_eq_true_2 by done. done.
Qed.

(** *** The sort *)

Lemma insert_Forall (P : DomainCount -> Prop) x s :
  P x -> Forall P s -> Forall P (insert by_count x s).
Proof.
  intros Hx. induction 1 as [|y s Hy Hs IH]; cbn [insert].
  - by repeat constructor.
  - destruct (by_count x y <=? 0); repeat constructor; auto.
Qed.

Lemma sort_Forall (P : DomainCount -> Prop) l :
  Forall P l -> Forall P (sort by_count l).
Proof.
  unfold sort. induction 1; cbn [foldr]; [constructor|].
  by apply insert_Forall.
Qed.

Lemma insert_length x (s : list DomainCount) :
  length (insert by_count x s) = S (length s).
Proof.
  induction s as [|y s IH]; cbn [insert]; [done|].
  destruct (by_count x y <=? 0); cbn [length]; by rewrite ?IH.
Qed.

Lemma sort_length (l : list DomainCount) : length (sort by_count l) = length l.
Proof.
  unfold sort. induction l as [|x l IH]; cbn [foldr]; [done|].
  by rewrite insert_length, IH.
Qed.

(** An element that stood before every element of a ranked list is put in
    its place: behind the larger counts, in front of the equal ones. *)
Lemma insert_ranked log x s :
  Forall (fun y => (first_seen (domain x) log < first_seen (domain y) log)%nat) s ->
  StronglySorted (ranks_before log) s ->
  StronglySorted (ranks_before log) (insert by_count x s).
Proof.
  intros Hx Hs. induction Hs as [|y s Hs IH Hy]; cbn [insert].
  - repeat constructor.
  - apply Forall_cons in Hx as [Hxy Hx]. unfold by_count at 1.
    destruct (Z.leb_spec (count y - count x) 0) as [Hle|Hgt].
    + constructor; [by constructor|]. constructor.
      * unfold ranks_before. lia.
      * rewrite Forall_forall in *. intros z Hz.
        specialize (Hy _ Hz). specialize (Hx _ Hz). unfold ranks_before in *. lia.
    + constructor; [by apply IH|].
      apply insert_Forall; [|done]. unfold ranks_before. lia.
Qed.

(** The stable sort of a list that is in order of first appearance is ranked
    by count, and by first appearance among equal counts. *)
Lemma sort_ranked log l :
  StronglySorted
    (fun a b => (first_seen (domain a) log < first_seen (domain b) log)%nat) l ->
  StronglySorted (ranks_before log) (sort by_count l).
Proof.
  unfold sort. induction 1 as [|x l _ IH Hx]; cbn [foldr]; [constructor|].
  apply insert_ranked; [|done]. by apply (sort_Forall _ l).
Qed.

Lemma StronglySorted_take {A} (R : relation A) n (l : list A) :
  StronglySorted R l -> StronglySorted R (take n l).
Proof.
  intros Hs. rewrite <- (take_drop n l) in Hs.
  by apply StronglySorted_app_1_l in Hs.
Qed.

Lemma StronglySorted_lookup {A} (R : relation A) (l : list A) i j a b :
  StronglySorted R l -> (i < j)%nat -> l !! i = Some a -> l !! j = Some b -> R a b.
Proof.
  intros Hs. revert i j. induction Hs as [|x l _ IH Hx]; intros i j Hij Hi Hj.
  - by rewrite lookup_nil in Hi.
  - destruct j as [|j]; [lia|]. cbn in Hj. destruct i as [|i].
    + cbn in Hi. injection Hi as ->. rewrite Forall_forall in Hx.
      apply Hx. by eapply list_elem_of_lookup_2.
    + cbn in Hi. apply (IH i j); [lia|done..].
Qed.

(** *** [getStats] *)

Lemma topDomains_getStats st :
  topDomains (getStats st) =
  take 10 (sort by_count (entry_of <$> domainCounts (logEntries st))).
Proof.
  unfold getStats, domainCounts.
  by destruct (fold_left tally (logEntries st) ([], 0, 0)) as [[m a] b].
Qed.

Lemma topDomains_ranked st :
  StronglySorted (ranks_before (logEntries st)) (topDomains (getStats st)).
Proof.
  rewrite topDomains_getStats. apply StronglySorted_take, sort_ranked.
  destruct (domainCounts_spec (logEntries st)) as (Hs & _ & _).
  revert Hs. generalize (domainCounts (logEntries st)). intros m.
  induction m as [|[k v] m IH]; cbn [fmap list_fmap fst]; [constructor|].
  intros [Hk Hs]%StronglySorted_cons. constructor; [by apply IH|].
  rewrite Forall_fmap. rewrite Forall_fmap in Hk.
  eapply Forall_impl; [exact Hk|]. by intros [k' v'].
Qed.

Lemma topDomains_frequency st :
  Forall (fun a => count a = frequency (domain a) (logEntries st))
    (topDomains (getStats st)).
Proof.
  rewrite topDomains_getStats. apply Forall_take, sort_Forall.
  destruct (domainCounts_spec (logEntries st)) as (_ & _ & Hf).
  rewrite Forall_fmap. eapply Forall_impl; [exact Hf|]. by intros [k v].
Qed.

(** C8. In the top-domains list every count is the frequency of its host
    name in the log; an earlier entry never has a smaller count than a later
    one, and of two entries with the same count the earlier one is the host
    name that appeared first in the log. *)
Theorem topDomains_sorted_stable st i j a b :
  (i < j)%nat ->
  topDomains (getStats st) !! i = Some a ->
  topDomains (getStats st) !! j = Some b ->
  count a = frequency (domain a) (logEntries st)
  /\ count b = frequency (domain b) (logEntries st)
  /\ count b <= count a
  /\ (count a = count b ->
      (first_seen (domain a) (logEntries st) < first_seen (domain b) (logEntries st))%nat).
Proof.
  intros Hij Hi Hj.
  pose proof (topDomains_frequency st) as Hf. rewrite Forall_forall in Hf.
  split; [apply Hf; by eapply list_elem_of_lookup_2|].
  split; [apply Hf; by eapply list_elem_of_lookup_2|].
  pose proof (StronglySorted_lookup _ _ _ _ _ _ (topDomains_ranked st) Hij Hi Hj) as Hr.
  unfold ranks_before in Hr. lia.
Qed.

Lemma topDomains_sorted_stable_witness :
  let st := sample_logger in
  let a := {| domain := "b.example"; count := 2 |} in
  let b := {| domain := "c.example"; count := 2 |} in
  count a = frequency (domain a) (logEntries st)
  /\ count b = frequency (domain b) (logEntries st)
  /\ count b <= count a
  /\ (count a = count b ->
      (first_seen (domain a) (logEntries st) < first_seen (domain b) (logEntries st))%nat).
Proof.
  intros st a b.
  apply (topDomains_sorted_stable st 0 1 a b); [lia | reflexivity | reflexivity].
Defined.

(** C9. The top-domains list has as many entries as there are distinct host
    names in the log, and ten when there are more. *)
Theorem topDomains_length st :
  length (topDomains (getStats st)) =
  Nat.min 10 (size (logged_hostnames (logEntries st))).
Proof.
  rewrite topDomains_getStats, length_take, sort_length, length_fmap.
  f_equal. destruct (domainCounts_spec (logEntries st)) as (Hs & Hk & _).
  apply StronglySorted_NoDup_lt in Hs.
  rewrite <- (length_fmap fst).
  rewrite <- (size_list_to_set (C := gset string)) by done.
  f_equal. unfold logged_hostnames. apply set_eq. intros k.
  by rewrite !elem_of_list_to_set.
Qed.

(** The set [uniqueDomains] holds the logged host names as long as the
    logger is only changed by [logRequest] and [clearLogs]. *)
Lemma logRequest_uniqueDomains entry st :
  uniqueDomains st = logged_hostnames (logEntries st) ->
  uniqueDomains (logRequest entry st) = logged_hostnames (logEntries (logRequest entry st)).
Proof.
  intros H. unfold logRequest, writeToLogFile, logged_hostnames in *.
  cbn [uniqueDomains logEntries]. rewrite H, fmap_app, list_to_set_app_L.
  cbn [fmap list_fmap list_to_set].
  by rewrite (right_id_L ∅ (∪)), (comm_L (∪)).
Qed.

End Stats.

End TrafficLoggerFacts.

Module SniProxyMore.

Import SniProxy SniProxyFacts.
Local Open Scope Z_scope.

(** ** Buffers the parser gives up on *)

(** X1. A buffer that does not start with the handshake record type, or that is
    shorter than 46 octets, yields no host name: the parser returns before
    its first [readUInt16BE]. *)
Theorem extractSNI_short_or_not_handshake data :
  index data (Int 0) <> Some 0x16 \/ len data < 46 ->
  extractSNI data = Returns None.
Proof.
  intros Hcase. unfold extractSNI.
  destruct (strict_eq (index data (Int 0)) 22) eqn:Hfirst; [|reflexivity].
  cbn [negb plus]. change (0 + 5 + 38) with 43.
  destruct Hcase as [Hne | Hshort].
  { exfalso. apply Hne. destruct (index data (Int 0)) as [v|]; [|discriminate].
    cbn [strict_eq] in Hfirst. apply Z.eqb_eq in Hfirst. by subst. }
  unfold len in Hshort. cbn [ge length_of].
  destruct (Z.leb_spec (Z.of_nat (length data)) 43) as [|Hlong]; [reflexivity|].
  destruct (index_inside data 43) as [sid Hsid]; [lia|].
  rewrite Hsid. cbn [to_number plus gt length_of].
  apply index_Some in Hsid as (_ & _ & _ & Hsid).
  destruct (Z.ltb_spec (Z.of_nat (length data)) (43 + (1 + sid) + 2)); [reflexivity|lia].
Qed.

Lemma extractSNI_short_or_not_handshake_witness :
  extractSNI (take 45 hello_example_com) = Returns None.
Proof.
  apply (extractSNI_short_or_not_handshake (take 45 hello_example_com)).
  right. vm_compute. reflexivity.
Defined.

(** ** From the header to the loop *)

(** The five reads of the header, when none of them fails, lead to the loop
    over the extensions. *)
Lemma extractSNI_header data sid cs cm el :
  index data (Int 0) = Some 0x16 ->
  index data (Int 43) = Some sid ->
  readUInt16BE data (Int (44 + sid)) = Returns cs ->
  index data (Int (46 + sid + cs)) = Some cm ->
  readUInt16BE data (Int (47 + sid + cs + cm)) = Returns el ->
  extractSNI data =
  scanExtensions (length data) data
    (Int (49 + sid + cs + cm + el)) (Int (49 + sid + cs + cm)).
Proof.
  intros H0 H43 Hcs Hcm Hel. unfold extractSNI.
  rewrite H0. cbn [strict_eq negb plus].
  change (22 =? 22) with true. change (0 + 5 + 38) with 43. cbn [negb].
  destruct (index_Some _ _ _ H43) as (? & [= <-] & H43in & _).
  destruct (readUInt16BE_Returns _ _ _ Hcs) as (? & [= <-] & _ & Hcsfit & _).
  destruct (index_Some _ _ _ Hcm) as (? & [= <-] & Hcmin & _).
  destruct (readUInt16BE_Returns _ _ _ Hel) as (? & [= <-] & _ & Helfit & _).
  rewrite H43. cbn [to_number plus length_of ge gt].
  destruct (Z.leb_spec (Z.of_nat (length data)) 43); [lia|].
  replace (43 + (1 + sid)) with (44 + sid) by lia.
  destruct (Z.ltb_spec (Z.of_nat (length data)) (44 + sid + 2)); [lia|].
  rewrite Hcs. cbn [bind plus].
  replace (44 + sid + (2 + cs)) with (46 + sid + cs) by lia.
  rewrite Hcm. cbn [to_number plus gt length_of].
  replace (46 + sid + cs + (1 + cm)) with (47 + sid + cs + cm) by lia.
  destruct (Z.ltb_spec (Z.of_nat (length data)) (47 + sid + cs + cm + 2)); [lia|].
  rewrite Hel. cbn [bind plus].
  replace (47 + sid + cs + cm + 2) with (49 + sid + cs + cm) by lia.
  replace (49 + sid + cs + cm + el) with (49 + sid + cs + cm + el) by lia.
  reflexivity.
Qed.

(** A well-formed ClientHello is a 49-octet-plus prefix followed by the
    extension block, and the parser reaches the loop at the start of the
    block with the end of the block as its bound. *)
Lemma clientHello_scan random sid cs cm exts :
  length random = 32%nat ->
  len sid < 256 -> len cs < 65536 -> len cm < 256 -> len exts < 65536 ->
  exists pre,
    clientHello random sid cs cm exts = pre ++ exts
    /\ 49 <= len pre
    /\ extractSNI (pre ++ exts) =
       scanExtensions (length (pre ++ exts)) (pre ++ exts)
         (Int (len pre + len exts)) (Int (len pre)).
Proof.
  intros Hr Hsid Hcs Hcm Hexts.
  set (data := clientHello random sid cs cm exts).
  assert (0 <= len sid /\ 0 <= len cs /\ 0 <= len cm /\ 0 <= len exts)
    as (? & ? & ? & ?) by (unfold len; lia).
  set (hdr := take 11 data).
  set (p1 := hdr ++ random).
  set (p2 := p1 ++ [octet (len sid)] ++ sid).
  set (p3 := p2 ++ u16 (len cs) ++ cs).
  set (p4 := p3 ++ [octet (len cm)] ++ cm).
  set (p5 := p4 ++ u16 (len exts)).
  assert (Hhdr : length hdr = 11%nat) by reflexivity.
  assert (L1 : len p1 = 43) by (unfold len, p1; rewrite length_app; lia).
  assert (L2 : len p2 = 44 + len sid)
    by (unfold len in *; unfold p2; rewrite !length_app; cbn [length]; lia).
  assert (L3 : len p3 = 46 + len sid + len cs)
    by (unfold len in *; unfold p3; rewrite !length_app; cbn [length u16]; lia).
  assert (L4 : len p4 = 47 + len sid + len cs + len cm)
    by (unfold len in *; unfold p4; rewrite !length_app; cbn [length]; lia).
  assert (L5 : len p5 = 49 + len sid + len cs + len cm)
    by (unfold len in *; unfold p5; rewrite !length_app; cbn [length u16]; lia).
  assert (Hdata : data = p5 ++ exts).
  { unfold p5, p4, p3, p2, p1. rewrite <- !app_assoc. reflexivity. }
  assert (C1 : data = p1 ++ octet (len sid) :: sid ++ u16 (len cs) ++ cs
                      ++ [octet (len cm)] ++ cm ++ u16 (len exts) ++ exts).
  { rewrite Hdata. unfold p5, p4, p3, p2. rewrite <- !app_assoc. reflexivity. }
  assert (C2 : data = p2 ++ u16 (len cs) ++ cs ++ [octet (len cm)] ++ cm
                      ++ u16 (len exts) ++ exts).
  { rewrite Hdata. unfold p5, p4, p3. rewrite <- !app_assoc. reflexivity. }
  assert (C3 : data = p3 ++ octet (len cm) :: cm ++ u16 (len exts) ++ exts).
  { rewrite Hdata. unfold p5, p4. rewrite <- !app_assoc. reflexivity. }
  assert (C4 : data = p4 ++ u16 (len exts) ++ exts).
  { rewrite Hdata. unfold p5. rewrite <- !app_assoc. reflexivity. }
  exists p5. split; [exact Hdata|]. split; [lia|].
  rewrite <- Hdata.
  rewrite (extractSNI_header data (len sid) (len cs) (len cm) (len exts)).
  - rewrite L5. reflexivity.
  - reflexivity.
  - rewrite (index_cut _ _ _ _ _ C1) by lia. by rewrite byte_val_octet by lia.
  - apply (readUInt16BE_u16 _ _ _ _ _ C2); lia.
  - rewrite (index_cut _ _ _ _ _ C3) by lia. by rewrite byte_val_octet by lia.
  - apply (readUInt16BE_u16 _ _ _ _ _ C4); lia.
Qed.

(** ** The loop over the extensions *)

Lemma len_app (a b : Buffer) : len (a ++ b) = len a + len b.
Proof. unfold len. rewrite length_app. lia. Qed.

Lemma len_extension t p : len (extension t p) = 4 + len p.
Proof. unfold extension. rewrite !len_app. unfold len. cbn [length u16]. lia. Qed.

Lemma len_nonneg (b : Buffer) : 0 <= len b.
Proof. unfold len. lia. Qed.

Lemma encode_extensions_cons e exts :
  encode_extensions (e :: exts) = extension e.1 e.2 ++ encode_extensions exts.
Proof. reflexivity. Qed.

Lemma encode_extensions_length exts :
  4 * Z.of_nat (length exts) <= len (encode_extensions exts).
Proof.
  induction exts as [|e exts IH]; [unfold len; cbn; lia|].
  rewrite encode_extensions_cons, len_app, len_extension.
  pose proof (len_nonneg e.2). cbn [length]. lia.
Qed.

(** The loop steps over every extension whose type is not 0. *)
Lemma scanExtensions_skip exts : forall fuel pre rest end_,
  Forall other_extension exts ->
  (length exts < fuel)%nat ->
  len pre + len (encode_extensions exts) <= end_ ->
  scanExtensions fuel (pre ++ encode_extensions exts ++ rest) (Int end_) (Int (len pre))
  = scanExtensions (fuel - length exts) (pre ++ encode_extensions exts ++ rest)
      (Int end_) (Int (len pre + len (encode_extensions exts))).
Proof.
  induction exts as [|[t p] exts IH]; intros fuel pre rest end_ Hok Hfuel Hend.
  { cbn [length]. rewrite Nat.sub_0_r. do 2 f_equal. unfold len at 3. cbn. lia. }
  apply Forall_cons in Hok as [[Ht Hp] Hok]. cbn [fst snd] in *.
  rewrite encode_extensions_cons in *. cbn [fst snd] in *.
  rewrite len_app, len_extension in Hend |- *.
  pose proof (len_nonneg p). pose proof (len_nonneg (encode_extensions exts)).
  pose proof (len_nonneg pre). pose proof (len_nonneg rest).
  destruct fuel as [|fuel]; [cbn in Hfuel; lia|].
  set (data := pre ++ (extension t p ++ encode_extensions exts) ++ rest).
  assert (Hlen : len data = len pre + (4 + len p) + len (encode_extensions exts) + len rest).
  { unfold data. rewrite !len_app, len_extension. lia. }
  assert (C1 : data = pre ++ u16 t ++ u16 (len p) ++ p ++ encode_extensions exts ++ rest).
  { unfold data, extension. by rewrite <- !app_assoc. }
  assert (C2 : data = (pre ++ u16 t) ++ u16 (len p) ++ p ++ encode_extensions exts ++ rest).
  { rewrite C1. by rewrite <- !app_assoc. }
  assert (C3 : data = (pre ++ extension t p) ++ encode_extensions exts ++ rest).
  { unfold data. by rewrite <- !app_assoc. }
  cbn [scanExtensions plus le length_of]. fold (len data).
  destruct (Z.leb_spec (len pre + 4) end_); [|lia].
  destruct (Z.leb_spec (len pre + 4) (len data)); [|lia].
  cbn [andb].
  rewrite (readUInt16BE_u16 _ _ _ _ _ C1) by lia. cbn [bind].
  rewrite (readUInt16BE_u16 data (pre ++ u16 t) (len p) _ (len pre + 2) C2);
    [|rewrite len_app; unfold len; cbn [length u16]; lia|lia].
  cbn [bind]. destruct (Z.eqb_spec t 0); [lia|]. cbn [andb].
  replace (len pre + 4 + len p) with (len (pre ++ extension t p))
    by (rewrite len_app, len_extension; lia).
  rewrite C3. rewrite IH; [|done|cbn [length] in Hfuel; lia|].
  - cbn [length Nat.sub]. do 2 f_equal. rewrite len_app, len_extension. lia.
  - rewrite len_app, len_extension. lia.
Qed.

(** At the end of the block the loop stops without a host name. *)
Lemma scanExtensions_end fuel data end_ i :
  (0 < fuel)%nat -> end_ < i + 4 ->
  scanExtensions fuel data (Int end_) (Int i) = Returns None.
Proof.
  intros Hfuel Hend. destruct fuel; [lia|]. cbn [scanExtensions plus le].
  destruct (Z.leb_spec (i + 4) end_); [lia|]. reflexivity.
Qed.

(** At an extension of type 0 that fits the buffer, the loop takes the two
    octets at offset 5 of the payload for the length of the name and returns
    that many of the octets that follow them, or fewer when the buffer ends
    earlier. *)
Lemma scanExtensions_server_name fuel pre extLen pad n after end_ :
  (0 < fuel)%nat ->
  length pad = 5%nat ->
  0 <= extLen < 65536 -> 0 <= n < 65536 ->
  len pre + 4 <= end_ ->
  extLen <= 7 + len after ->
  scanExtensions fuel (pre ++ u16 0 ++ u16 extLen ++ pad ++ u16 n ++ after)
    (Int end_) (Int (len pre))
  = Returns (Some (toString_utf8 (take (Z.to_nat n) after))).
Proof.
  intros Hfuel Hpad HextLen Hn Hend Hfit.
  set (data := pre ++ u16 0 ++ u16 extLen ++ pad ++ u16 n ++ after).
  pose proof (len_nonneg pre). pose proof (len_nonneg after).
  assert (Hlen : len data = len pre + 11 + len after).
  { unfold data. rewrite !len_app. unfold len. rewrite Hpad. cbn [length u16]. lia. }
  destruct pad as [|b0 [|b1 [|b2 [|b3 [|b4 [|]]]]]]; try discriminate Hpad.
  assert (C1 : data = pre ++ u16 0 ++ u16 extLen ++ [b0; b1; b2; b3; b4] ++ u16 n ++ after)
    by reflexivity.
  assert (C2 : data = (pre ++ u16 0) ++ u16 extLen ++ [b0; b1; b2; b3; b4] ++ u16 n ++ after).
  { rewrite C1. by rewrite <- !app_assoc. }
  assert (C3 : data = (pre ++ u16 0 ++ u16 extLen ++ [b0; b1]) ++ b2 :: b3 :: b4 :: u16 n ++ after).
  { rewrite C1. by rewrite <- !app_assoc. }
  assert (C4 : data = (pre ++ u16 0 ++ u16 extLen ++ [b0; b1; b2; b3; b4]) ++ u16 n ++ after).
  { rewrite C1. by rewrite <- !app_assoc. }
  assert (C5 : data = (pre ++ u16 0 ++ u16 extLen ++ [b0; b1; b2; b3; b4] ++ u16 n) ++ after).
  { rewrite C1. by rewrite <- !app_assoc. }
  destruct fuel; [lia|]. cbn [scanExtensions plus le length_of]. fold (len data).
  destruct (Z.leb_spec (len pre + 4) end_); [|lia].
  destruct (Z.leb_spec (len pre + 4) (len data)); [|lia].
  cbn [andb].
  rewrite (readUInt16BE_u16 _ _ _ _ _ C1) by lia. cbn [bind].
  rewrite (readUInt16BE_u16 data (pre ++ u16 0) extLen _ (len pre + 2) C2);
    [|rewrite len_app; unfold len; cbn [length u16]; lia|lia].
  cbn [bind]. change (0 =? 0) with true.
  destruct (Z.leb_spec (len pre + 4 + extLen) (len data)); [|lia].
  cbn [andb].
  rewrite (readUInt16BE_cut data _ b2 b3 _ (len pre + 4 + 2) C3);
    [|rewrite !len_app; unfold len; cbn [length u16]; lia].
  cbn [bind].
  rewrite (readUInt16BE_u16 data _ n _ (len pre + 4 + 5) C4);
    [|rewrite !len_app; unfold len; cbn [length u16]; lia|lia].
  cbn [bind].
  replace (len pre + 4 + 7) with
    (len (pre ++ u16 0 ++ u16 extLen ++ [b0; b1; b2; b3; b4] ++ u16 n))
    by (rewrite !len_app; unfold len; cbn [length u16]; lia).
  by rewrite (slice_cut data _ after n C5) by lia.
Qed.

(** ** Whole ClientHello messages *)

(** X2. A ClientHello with well-formed length fields and no extension of type 0
    yields no host name, however many extensions of other types it has. *)
Theorem extractSNI_without_server_name random sid cs cm exts :
  length random = 32%nat ->
  len sid < 256 -> len cs < 65536 -> len cm < 256 ->
  Forall other_extension exts ->
  len (encode_extensions exts) < 65536 ->
  extractSNI (clientHello random sid cs cm (encode_extensions exts)) = Returns None.
Proof.
  intros Hr Hsid Hcs Hcm Hok Hlen.
  destruct (clientHello_scan random sid cs cm _ Hr Hsid Hcs Hcm Hlen)
    as (pre & -> & Hpre & ->).
  pose proof (encode_extensions_length exts) as Hcount.
  pose proof (len_nonneg (encode_extensions exts)).
  rewrite <- (app_nil_r (encode_extensions exts)) at 1 2.
  rewrite scanExtensions_skip; [|done| |lia].
  - apply scanExtensions_end; [|lia].
    rewrite app_nil_r, length_app. unfold len in *. lia.
  - rewrite app_nil_r, length_app. unfold len in *. lia.
Qed.

Lemma extractSNI_without_server_name_witness :
  extractSNI
    (clientHello (replicate 32 (octet 7)) [octet 1; octet 2] [octet 0x13; octet 0x01]
       [octet 0]
       (encode_extensions [(10, [octet 0; octet 2; octet 0; octet 29]); (35, [])]))
  = Returns None.
Proof.
  apply extractSNI_without_server_name;
    [reflexivity | reflexivity | reflexivity | reflexivity | | reflexivity].
  repeat constructor; cbn; lia.
Defined.

(** X3. Behind any extensions of other types, an extension of type 0 whose
    payload holds the length of the name at offset 5 and the name at offset 7
    (the layout the parser reads) yields exactly the name, decoded as UTF-8;
    the five octets in front of the length and the extensions that follow do
    not matter. *)
Theorem extractSNI_parser_layout random sid cs cm exts pad host post :
  length random = 32%nat ->
  len sid < 256 -> len cs < 65536 -> len cm < 256 ->
  Forall other_extension exts ->
  length pad = 5%nat ->
  len (encode_extensions exts ++ extension 0 (pad ++ u16 (len host) ++ host) ++ post)
    < 65536 ->
  extractSNI
    (clientHello random sid cs cm
       (encode_extensions exts ++ extension 0 (pad ++ u16 (len host) ++ host) ++ post))
  = Returns (Some (toString_utf8 host)).
Proof.
  intros Hr Hsid Hcs Hcm Hok Hpad Hlen.
  destruct (clientHello_scan random sid cs cm _ Hr Hsid Hcs Hcm Hlen)
    as (pre & -> & Hpre & ->).
  pose proof (encode_extensions_length exts) as Hcount.
  pose proof (len_nonneg (encode_extensions exts)).
  pose proof (len_nonneg host). pose proof (len_nonneg post).
  set (sn := extension 0 (pad ++ u16 (len host) ++ host)) in *.
  assert (Hsn : len sn = 11 + len host).
  { unfold sn. rewrite len_extension, !len_app. unfold len. rewrite Hpad.
    cbn [length u16]. lia. }
  rewrite !len_app, Hsn in Hlen.
  rewrite scanExtensions_skip; [|done| |rewrite !len_app; lia].
  2: { rewrite !length_app. unfold len in *. lia. }
  replace (len pre + len (encode_extensions exts))
    with (len (pre ++ encode_extensions exts)) by (by rewrite len_app).
  replace (pre ++ encode_extensions exts ++ sn ++ post)
    with ((pre ++ encode_extensions exts) ++ u16 0 ++ u16 (7 + len host) ++ pad
          ++ u16 (len host) ++ host ++ post).
  2: { assert (Hpay : len (pad ++ u16 (len host) ++ host) = 7 + len host).
       { rewrite !len_app. unfold len. rewrite Hpad. cbn [length u16]. lia. }
       unfold sn, extension. rewrite Hpay. by rewrite <- !app_assoc. }
  rewrite scanExtensions_server_name; [|rewrite !length_app; unfold len in *; lia
                                       |done|lia|lia|rewrite !len_app; lia
                                       |rewrite len_app; lia].
  unfold len. by rewrite Nat2Z.id, take_app_length.
Qed.

Lemma extractSNI_parser_layout_witness :
  extractSNI
    (clientHello (replicate 32 (octet 7)) [] [octet 0x13; octet 0x01] [octet 0]
       (encode_extensions [(10, [octet 0; octet 2; octet 0; octet 29])]
        ++ extension 0 (replicate 5 (octet 0)
                        ++ u16 (len (ascii_bytes "www.facebook.com"))
                        ++ ascii_bytes "www.facebook.com")
        ++ encode_extensions [(35, [])]))
  = Returns (Some (toString_utf8 (ascii_bytes "www.facebook.com"))).
Proof.
  apply extractSNI_parser_layout;
    [reflexivity | reflexivity | reflexivity | reflexivity | | reflexivity | reflexivity].
  repeat constructor; cbn; lia.
Defined.

Lemma octet_byte_val b : octet (byte_val b) = b.
Proof.
  unfold octet, byte_val. rewrite N2Z.id, Byte.of_to_N. reflexivity.
Qed.

(** X4. Behind any extensions of other types, a server-name extension as TLS
    lays it out (list length, name type, name length, name) makes the parser
    take the first two octets of the name for its length: it returns the
    decoding of that many of the octets that follow them, the rest of the
    name and then the extensions behind it. *)
Theorem extractSNI_tls_layout random sid cs cm exts a b name post :
  length random = 32%nat ->
  len sid < 256 -> len cs < 65536 -> len cm < 256 ->
  Forall other_extension exts ->
  len (encode_extensions exts ++ serverName (a :: b :: name) ++ post) < 65536 ->
  extractSNI
    (clientHello random sid cs cm
       (encode_extensions exts ++ serverName (a :: b :: name) ++ post))
  = Returns
      (Some (toString_utf8
               (take (Z.to_nat (byte_val a * 256 + byte_val b)) (name ++ post)))).
Proof.
  intros Hr Hsid Hcs Hcm Hok Hlen.
  destruct (clientHello_scan random sid cs cm _ Hr Hsid Hcs Hcm Hlen)
    as (pre & -> & Hpre & ->).
  pose proof (encode_extensions_length exts) as Hcount.
  pose proof (len_nonneg (encode_extensions exts)).
  pose proof (len_nonneg name). pose proof (len_nonneg post).
  pose proof (byte_val_range a). pose proof (byte_val_range b).
  set (host := a :: b :: name) in *.
  assert (Hhost : len host = 2 + len name) by (unfold host, len; cbn [length]; lia).
  set (sn := serverName host) in *.
  assert (Hsn : len sn = 9 + len host).
  { unfold sn, serverName. rewrite len_extension, !len_app. unfold len.
    cbn [length u16]. lia. }
  rewrite !len_app, Hsn in Hlen.
  rewrite scanExtensions_skip; [|done| |rewrite !len_app; lia].
  2: { rewrite !length_app. unfold len in *. lia. }
  replace (len pre + len (encode_extensions exts))
    with (len (pre ++ encode_extensions exts)) by (by rewrite len_app).
  set (n := byte_val a * 256 + byte_val b).
  assert (Hab : u16 n = [a; b]).
  { unfold u16, n. rewrite Z.div_add_l, Z.div_small, Z.add_0_r by lia.
    rewrite Z.add_comm, Z.mod_add, Z.mod_small by lia. by rewrite !octet_byte_val. }
  replace (pre ++ encode_extensions exts ++ sn ++ post)
    with ((pre ++ encode_extensions exts) ++ u16 0 ++ u16 (5 + len host)
          ++ (u16 (len host + 3) ++ [octet 0] ++ u16 (len host))
          ++ u16 n ++ name ++ post).
  2: { assert (Hpay : len (u16 (len host + 3) ++ [octet 0] ++ u16 (len host) ++ host)
                      = 5 + len host).
       { rewrite !len_app. unfold len. cbn [length u16]. lia. }
       rewrite Hab. unfold sn, serverName, extension. rewrite Hpay.
       unfold host. by rewrite <- !app_assoc. }
  rewrite scanExtensions_server_name; [done|rewrite !length_app; unfold len in *; lia
                                       |done|lia|lia|rewrite !len_app; lia
                                       |rewrite len_app; lia].
Qed.

Lemma extractSNI_tls_layout_witness :
  extractSNI
    (clientHello (replicate 32 (octet 7)) [] [octet 0x13; octet 0x01] [octet 0]
       (encode_extensions [(10, [octet 0; octet 2; octet 0; octet 29])]
        ++ serverName ("e" :: "x" :: ascii_bytes "ample.com")%byte
        ++ encode_extensions [(35, [])]))
  = Returns
      (Some (toString_utf8
               (take (Z.to_nat (byte_val "e" * 256 + byte_val "x"))
                  (ascii_bytes "ample.com" ++ encode_extensions [(35, [])])))).
Proof.
  apply extractSNI_tls_layout;
    [reflexivity | reflexivity | reflexivity | reflexivity | | reflexivity].
  repeat constructor; cbn; lia.
Defined.

(** X5. A well-formed ClientHello that is cut behind the length field of the
    cipher-suite list, inside the list or right at its end makes the parser
    throw: the compression-methods length is read beyond the buffer, the
    offset becomes [NaN], the bounds check that follows lets it pass and
    [readUInt16BE] rejects it. *)
Theorem extractSNI_cut_in_cipher_suites random sid cs cm exts n :
  length random = 32%nat ->
  len sid < 256 -> len cs < 65536 ->
  46 + len sid <= n <= 46 + len sid + len cs ->
  extractSNI (take (Z.to_nat n) (clientHello random sid cs cm exts))
  = Throws RangeError.
Proof.
  intros Hr Hsid Hcs Hn.
  set (data := clientHello random sid cs cm exts).
  pose proof (len_nonneg sid). pose proof (len_nonneg cs).
  set (hdr := take 11 data).
  set (p1 := hdr ++ random).
  set (p2 := p1 ++ [octet (len sid)] ++ sid).
  set (tail := cs ++ [octet (len cm)] ++ cm ++ u16 (len exts) ++ exts).
  assert (Hhdr : length hdr = 11%nat) by reflexivity.
  assert (L1 : len p1 = 43) by (unfold len, p1; rewrite length_app; lia).
  assert (L2 : len p2 = 44 + len sid)
    by (unfold len in *; unfold p2; rewrite !length_app; cbn [length]; lia).
  assert (Hdata : data = (p2 ++ u16 (len cs)) ++ tail).
  { unfold tail, p2, p1. rewrite <- !app_assoc. reflexivity. }
  set (kept := take (Z.to_nat n - length (p2 ++ u16 (len cs))) tail).
  assert (Hcut : take (Z.to_nat n) data = (p2 ++ u16 (len cs)) ++ kept).
  { rewrite Hdata. apply take_app_ge. rewrite length_app. unfold len in *.
    cbn [length u16]. lia. }
  assert (Hkept : len kept <= n - (46 + len sid)).
  { unfold kept, len. rewrite length_take, length_app. unfold len in *.
    cbn [length u16]. lia. }
  rewrite Hcut.
  apply (extractSNI_cipher_overrun _ (len sid) (len cs)).
  - unfold p2, p1. rewrite <- !app_assoc. reflexivity.
  - rewrite (index_cut _ p1 (octet (len sid)) (sid ++ u16 (len cs) ++ kept)).
    + by rewrite byte_val_octet by lia.
    + unfold p2. by rewrite <- !app_assoc.
    + lia.
  - apply (readUInt16BE_u16 _ p2 _ kept); [by rewrite <- app_assoc|lia|lia].
  - fold (len ((p2 ++ u16 (len cs)) ++ kept)). rewrite !len_app, L2.
    unfold len at 2. cbn [length u16]. lia.
Qed.

Lemma extractSNI_cut_in_cipher_suites_witness :
  extractSNI
    (take (Z.to_nat 49)
       (clientHello (replicate 32 (octet 7)) [octet 1; octet 2]
          [octet 0x13; octet 0x01; octet 0x13; octet 0x02] [octet 0]
          (serverName (ascii_bytes "example.com"))))
  = Throws RangeError.
Proof.
  apply extractSNI_cut_in_cipher_suites;
    [reflexivity | reflexivity | reflexivity | unfold len; cbn [length]; lia].
Defined.

(** ** The connection handler over whole runs *)

Lemma connects_app tr1 tr2 : connects (tr1 ++ tr2) = connects tr1 ++ connects tr2.
Proof. apply omap_app. Qed.

(** Once the listener of the first chunk is gone, no event brings it back
    and nothing calls [net.connect]. *)
Lemma step_not_listening c e :
  listening c = false ->
  exists c' out,
    step (Running c) e = (Running c', out)
    /\ listening c' = false /\ connects out = [].
Proof.
  intros Hl. destruct c as [l live r]. cbn [listening] in Hl. subst l.
  destruct e, r, live; cbn [step listening remote client_live]; eauto.
Qed.

Lemma run_not_listening c evs :
  listening c = false -> connects (run (Running c) evs).2 = [].
Proof.
  revert c. induction evs as [|e evs IH]; intros c Hl; [done|].
  cbn [run]. destruct (step_not_listening c e Hl) as (c' & out & -> & Hl' & Hout).
  specialize (IH c' Hl'). destruct (run (Running c') evs) as [p tr].
  cbn [snd] in *. by rewrite connects_app, Hout, IH.
Qed.

Lemma run_crashed evs : run Crashed evs = (Crashed, []).
Proof. induction evs as [|e evs IH]; [done|]. cbn [run step]. by rewrite IH. Qed.

(** X6. Whatever the sockets deliver and in whatever order, a client connection
    leads to at most one call of [net.connect], and that call is to port
    443. *)
Theorem at_most_one_connect evs :
  connects (trace evs) = []
  \/ exists host, connects (trace evs) = [(443, host)].
Proof.
  unfold trace, accepted. induction evs as [|e evs IH]; [by left|].
  cbn [run].
  destruct e; cbn [step listening remote client_live];
    try (destruct (run _ evs) as [p tr]; exact IH);
    try (match goal with
         | |- context [run (Running ?c) evs] =>
             pose proof (run_not_listening c evs eq_refl) as Hrest;
             destruct (run (Running c) evs) as [p tr]
         end; cbn [snd app] in *; left; exact Hrest).
  unfold onData. destruct (extractSNI chunk) as [sni| |].
  - destruct (truthy sni && has (or_empty sni)).
    + match goal with
      | |- context [run (Running ?c) evs] =>
          pose proof (run_not_listening c evs eq_refl) as Hrest;
          destruct (run (Running c) evs) as [p tr]
      end. cbn [snd app] in *. left. exact Hrest.
    + match goal with
      | |- context [run (Running ?c) evs] =>
          pose proof (run_not_listening c evs eq_refl) as Hrest;
          destruct (run (Running c) evs) as [p tr]
      end. cbn [snd app] in *. right. exists (or_empty sni).
      unfold connects in *. cbn [omap list_omap]. by rewrite Hrest.
  - rewrite run_crashed. by left.
  - rewrite run_crashed. by left.
Qed.

Lemma sublist_insert_second {A} (x y : A) (l k : list A) :
  l `sublist_of` x :: k -> l `sublist_of` x :: y :: k.
Proof.
  intros [H | (l' & -> & H)]%sublist_cons_r.
  - by apply sublist_cons, sublist_cons.
  - by apply sublist_skip, sublist_cons.
Qed.

Ltac run_rest IH evs :=
  match goal with
  | |- context [run ?q evs] =>
      specialize (IH q); destruct (run q evs) as [? ?]
  end;
  cbn [snd app held] in *; unfold upstream_writes, client_writes in *;
  cbn [omap list_omap].

Lemma upstream_writes_sublist_from p evs :
  upstream_writes (run p evs).2 `sublist_of` held p ++ client_chunks evs.
Proof.
  revert p. induction evs as [|e evs IH]; intros p; [apply sublist_nil_l|].
  cbn [run]. destruct p as [[l live r]|];
    [|cbn [step]; rewrite run_crashed; apply sublist_nil_l].
  destruct e; cbn [step listening remote client_live client_chunks omap list_omap];
    fold (client_chunks evs).
  - (* ClientData *)
    destruct l.
    + unfold onData. destruct (extractSNI chunk) as [sni| |];
        [|rewrite run_crashed; apply sublist_nil_l..].
      destruct (truthy sni && has (or_empty sni)); run_rest IH evs.
      * by apply sublist_inserts_l, sublist_cons.
      * by apply sublist_inserts_l.
    + destruct r, live; run_rest IH evs;
        first [ by apply sublist_cons
              | by apply sublist_skip
              | by apply sublist_insert_second ].
  - destruct r, live; run_rest IH evs; done.
  - destruct r; run_rest IH evs; done.
  - destruct r; run_rest IH evs; first [done | by apply sublist_skip].
  - destruct r, live; run_rest IH evs; done.
  - destruct r, live; run_rest IH evs; done.
  - destruct r; run_rest IH evs; first [done | by apply sublist_cons].
Qed.

Lemma client_writes_sublist_from p evs :
  client_writes (run p evs).2 `sublist_of` remote_chunks evs.
Proof.
  revert p. induction evs as [|e evs IH]; intros p; [apply sublist_nil_l|].
  cbn [run]. destruct p as [[l live r]|];
    [|cbn [step]; rewrite run_crashed; apply sublist_nil_l].
  destruct e; cbn [step listening remote client_live remote_chunks omap list_omap];
    fold (remote_chunks evs).
  - destruct l.
    + unfold onData. destruct (extractSNI chunk) as [sni| |];
        [|rewrite run_crashed; apply sublist_nil_l..].
      destruct (truthy sni && has (or_empty sni)); run_rest IH evs; done.
    + destruct r, live; run_rest IH evs; done.
  - destruct r, live; run_rest IH evs; done.
  - destruct r; run_rest IH evs; done.
  - destruct r; run_rest IH evs; done.
  - destruct r, live; run_rest IH evs;
      first [ by apply sublist_cons | by apply sublist_skip ].
  - destruct r, live; run_rest IH evs; done.
  - destruct r; run_rest IH evs; done.
Qed.

(** X7. The proxy forwards and invents nothing: the chunks written to the
    upstream are chunks the client sent, in the order it sent them, and the
    chunks written to the client are chunks the upstream sent, in the order
    it sent them. *)
Theorem forwards_only_what_arrived evs :
  upstream_writes (trace evs) `sublist_of` client_chunks evs
  /\ client_writes (trace evs) `sublist_of` remote_chunks evs.
Proof.
  split.
  - apply (upstream_writes_sublist_from accepted evs).
  - apply client_writes_sublist_from.
Qed.

End SniProxyMore.

Module TrafficLoggerMore.

Import TrafficLogger TrafficLoggerFacts.
Local Open Scope string_scope.
Local Open Scope list_scope.
Local Open Scope Z_scope.

(** ** Splitting at colons *)

Lemma split_without_separator sep s : has_char sep s = false -> split sep s = [s].
Proof.
  induction s as [|c s IH]; cbn [has_char split]; [done|].
  intros [Hc Hs]%orb_false_elim. rewrite Hc, (IH Hs). reflexivity.
Qed.

Lemma split_head sep s : exists h t, split sep s = h :: t /\ has_char sep h = false.
Proof.
  induction s as [|c s (h & t & IH & Hh)]; cbn [split]; [by exists "", []|].
  destruct (Ascii.eqb c sep) eqn:Hc; [by exists "", (split sep s)|].
  rewrite IH. exists (String c h), t. split; [done|]. cbn [has_char]. by rewrite Hc, Hh.
Qed.

Lemma or_str_nonempty s d : s <> "" -> or_str (Some s) d = s.
Proof. by destruct s. Qed.

(** ** Plain requests *)

(** X8. A request whose URL is not absolute and that has no [Host] header is
    answered with 400 and changes nothing: the pattern of the fallback branch
    asks for the very prefixes whose absence leads to it, so it never
    matches. *)
Theorem no_uri_no_host_is_rejected url_parse now req st :
  startsWith (url req) "http://" || startsWith (url req) "https://" = false ->
  headers req !! "host" = None ->
  handleHttpRequest url_parse now req st
  = (st, [WriteHead 400; EndResponse bad_request]).
Proof.
  intros Habs Hhost. unfold handleHttpRequest.
  by rewrite (resolve_nothing url_parse req Habs Hhost).
Qed.

Lemma no_uri_no_host_is_rejected_witness :
  handleHttpRequest simple_url_parse "2024-01-01T00:00:00.000Z"
    (request "GET" "ftp://example.com/file" {[ "user-agent" := "curl" ]}) empty_logger
  = (empty_logger, [WriteHead 400; EndResponse bad_request]).
Proof.
  apply no_uri_no_host_is_rejected; [reflexivity|]. by vm_compute.
Defined.

(** X9. A relative URL with a [Host] header that holds no colon resolves to
    that host, port 80 and the URL as the path (["/"] for an empty URL). *)
Theorem host_header_without_port url_parse req host :
  startsWith (url req) "http://" || startsWith (url req) "https://" = false ->
  headers req !! "host" = Some host ->
  host <> "" ->
  has_char ":" host = false ->
  resolve url_parse req
  = {| dest_hostname := host;
       dest_path := or_str (Some (url req)) "/";
       dest_port := 80 |}.
Proof.
  intros Habs Hhost Hne Hcolon. unfold resolve. rewrite Habs, Hhost.
  destruct host as [|c h]; [done|].
  rewrite (split_without_separator _ _ Hcolon). reflexivity.
Qed.

Lemma host_header_without_port_witness :
  resolve simple_url_parse (request "GET" "/index.html" {[ "host" := "example.com" ]})
  = {| dest_hostname := "example.com"; dest_path := "/index.html"; dest_port := 80 |}.
Proof.
  apply (host_header_without_port simple_url_parse
           (request "GET" "/index.html" {[ "host" := "example.com" ]}) "example.com");
    [reflexivity | by vm_compute | discriminate | reflexivity].
Defined.

(** X10. A request that resolves to a host name other than ["unknown"] and to
    a port within 0..65535 appends exactly one entry to the log and one line
    to the file, adds the host name to the set of domains, and calls
    [http.request] once, with a port that call accepts: the resolved host,
    port and path, the method of the request, and its headers except
    [proxy-connection]. *)
Theorem resolved_request_is_forwarded url_parse now req st :
  dest_hostname (resolve url_parse req) <> "" ->
  dest_hostname (resolve url_parse req) <> "unknown" ->
  validPort (dest_port (resolve url_parse req)) = true ->
  let d := resolve url_parse req in
  let entry :=
    {| timestamp := now; method := req_method req; hostname := dest_hostname d;
       path := dest_path d; protocol := HTTP;
       userAgent := headers req !! "user-agent" |} in
  exists options,
    handleHttpRequest url_parse now req st
    = ({| logEntries := logEntries st ++ [entry];
          uniqueDomains := {[ dest_hostname d ]} ∪ uniqueDomains st;
          logFile := logFile st ++ [logLine entry] |},
       [HttpRequest options])
    /\ perform [HttpRequest options] = Completed [HttpRequest options]
    /\ opt_hostname options = dest_hostname d
    /\ opt_port options = dest_port d
    /\ opt_path options = dest_path d
    /\ opt_method options = req_method req
    /\ (forall k, opt_headers options !! k =
                  if decide (k = "proxy-connection") then None else headers req !! k).
Proof.
  intros H1 H2 Hport d entry. unfold handleHttpRequest. fold d.
  apply String.eqb_neq in H1, H2. fold d in H1, H2, Hport. rewrite H1, H2. cbn [orb].
  eexists. split; [reflexivity|].
  cbn [perform refused opt_hostname opt_port opt_path opt_method opt_headers].
  rewrite Hport. cbn [negb].
  repeat split. intros k. case_decide as Hk.
  - subst k. apply lookup_delete_eq.
  - by apply lookup_delete_ne.
Qed.

Lemma resolved_request_is_forwarded_witness :
  let req := request "GET" "/a" {[ "host" := "example.com:8080"; "proxy-connection" := "keep-alive" ]} in
  let d := resolve simple_url_parse req in
  let entry :=
    {| timestamp := "2024-01-01T00:00:00.000Z"; method := req_method req;
       hostname := dest_hostname d; path := dest_path d; protocol := HTTP;
       userAgent := headers req !! "user-agent" |} in
  exists options,
    handleHttpRequest simple_url_parse "2024-01-01T00:00:00.000Z" req empty_logger
    = ({| logEntries := logEntries empty_logger ++ [entry];
          uniqueDomains := {[ dest_hostname d ]} ∪ uniqueDomains empty_logger;
          logFile := logFile empty_logger ++ [logLine entry] |},
       [HttpRequest options])
    /\ perform [HttpRequest options] = Completed [HttpRequest options]
    /\ opt_hostname options = dest_hostname d
    /\ opt_port options = dest_port d
    /\ opt_path options = dest_path d
    /\ opt_method options = req_method req
    /\ (forall k, opt_headers options !! k =
                  if decide (k = "proxy-connection") then None else headers req !! k).
Proof.
  intros req.
  apply (resolved_request_is_forwarded simple_url_parse "2024-01-01T00:00:00.000Z" req
           empty_logger); by vm_compute.
Defined.

(** X24. A request that resolves to a host name other than ["unknown"] but to
    a port outside 0..65535 is logged like any other, and then the call of
    [http.request] throws: no request goes out, and the log holds an entry
    for a request that was never forwarded. *)
Theorem bad_port_request_is_logged_then_throws url_parse now req st :
  dest_hostname (resolve url_parse req) <> "" ->
  dest_hostname (resolve url_parse req) <> "unknown" ->
  validPort (dest_port (resolve url_parse req)) = false ->
  let d := resolve url_parse req in
  let entry :=
    {| timestamp := now; method := req_method req; hostname := dest_hostname d;
       path := dest_path d; protocol := HTTP;
       userAgent := headers req !! "user-agent" |} in
  (handleHttpRequest url_parse now req st).1 = logRequest entry st
  /\ perform (handleHttpRequest url_parse now req st).2 = Threw [].
Proof.
  intros H1 H2 Hport d entry. unfold handleHttpRequest. fold d.
  apply String.eqb_neq in H1, H2. fold d in H1, H2, Hport. rewrite H1, H2. cbn [orb].
  split; [reflexivity|]. cbn [snd perform refused opt_port]. by rewrite Hport.
Qed.

Lemma bad_port_request_is_logged_then_throws_witness :
  let req := request "GET" "/a" {[ "host" := "example.com:65536" ]} in
  let d := resolve simple_url_parse req in
  let entry :=
    {| timestamp := "2024-01-01T00:00:00.000Z"; method := req_method req;
       hostname := dest_hostname d; path := dest_path d; protocol := HTTP;
       userAgent := headers req !! "user-agent" |} in
  (handleHttpRequest simple_url_parse "2024-01-01T00:00:00.000Z" req empty_logger).1
  = logRequest entry empty_logger
  /\ perform (handleHttpRequest simple_url_parse "2024-01-01T00:00:00.000Z" req
                empty_logger).2 = Threw [].
Proof.
  intros req.
  apply (bad_port_request_is_logged_then_throws simple_url_parse
           "2024-01-01T00:00:00.000Z" req empty_logger); by vm_compute.
Defined.

(** ** CONNECT requests *)

(** X11. The host name [parseConnectUrl] returns never holds a colon: the target
    is cut at its first colon, also when it is a bracketed IPv6 address. *)
Theorem connect_hostname_without_colon connectUrl :
  has_char ":" (parseConnectUrl connectUrl).1 = false.
Proof.
  unfold parseConnectUrl. cbn [fst].
  destruct (split_head ":" connectUrl) as (h & t & -> & Hh).
  unfold item. cbn [lookup list_lookup]. by destruct h.
Qed.

(** X12. A CONNECT target without a colon is logged and connected to as that
    host on port 443. *)
Theorem connect_without_port now req head st :
  url req <> "" ->
  has_char ":" (url req) = false ->
  handleHttpsConnect now req head st
  = ({| logger :=
          logRequest
            {| timestamp := now; method := "CONNECT"; hostname := url req;
               path := "/"; protocol := HTTPS;
               userAgent := headers req !! "user-agent" |} st;
        tun := Connecting head |},
     [NetConnect 443 (url req)]).
Proof.
  intros Hne Hcolon. unfold handleHttpsConnect, parseConnectUrl.
  rewrite (split_without_separator _ _ Hcolon). unfold item.
  cbn [lookup list_lookup]. rewrite (or_str_nonempty _ _ Hne). reflexivity.
Qed.

Lemma connect_without_port_witness :
  let req := request "CONNECT" "example.com" ∅ in
  handleHttpsConnect "2024-01-01T00:00:00.000Z" req "" empty_logger
  = ({| logger :=
          logRequest
            {| timestamp := "2024-01-01T00:00:00.000Z"; method := "CONNECT";
               hostname := url req; path := "/"; protocol := HTTPS;
               userAgent := headers req !! "user-agent" |} empty_logger;
        tun := Connecting "" |},
     [NetConnect 443 (url req)]).
Proof.
  intros req.
  apply (connect_without_port "2024-01-01T00:00:00.000Z" req "" empty_logger);
    [discriminate | reflexivity].
Defined.

(** X25. A CONNECT request whose target names a port outside 0..65535 is
    logged like any other, and then the call of [net.connect] throws: no
    connection is started, and the log holds an entry for a tunnel that was
    never opened. *)
Theorem bad_port_connect_is_logged_then_throws now req head st :
  validPort (or_num (parseInt (parseConnectUrl (url req)).2) 443) = false ->
  logger (handleHttpsConnect now req head st).1 = logRequest (connect_entry now req) st
  /\ perform (handleHttpsConnect now req head st).2 = Threw [].
Proof.
  intros Hport. unfold handleHttpsConnect, connect_entry.
  destruct (parseConnectUrl (url req)) as [hostname port]. cbn [fst snd] in *.
  split; [reflexivity|]. cbn [perform refused]. by rewrite Hport.
Qed.

Lemma bad_port_connect_is_logged_then_throws_witness :
  let req := request "CONNECT" "example.com:70000" ∅ in
  logger (handleHttpsConnect "2024-01-01T00:00:00.000Z" req "" empty_logger).1
  = logRequest (connect_entry "2024-01-01T00:00:00.000Z" req) empty_logger
  /\ perform (handleHttpsConnect "2024-01-01T00:00:00.000Z" req "" empty_logger).2
     = Threw [].
Proof.
  intros req.
  apply (bad_port_connect_is_logged_then_throws "2024-01-01T00:00:00.000Z" req ""
           empty_logger).
  by vm_compute.
Defined.

(** ** Tunnels *)

Lemma to_client_app out1 out2 : to_client (out1 ++ out2) = to_client out1 ++ to_client out2.
Proof. apply omap_app. Qed.

Lemma to_server_app out1 out2 : to_server (out1 ++ out2) = to_server out1 ++ to_server out2.
Proof. apply omap_app. Qed.




Lemma run_bridged st flow :
  Forall (fun e => is_chunk e = true) flow ->
  (run {| logger := st; tun := Piped |} flow).2 = flow ≫= bridged.
Proof.
  induction 1 as [|e flow He _ IH]; [done|].
  cbn [run]. destruct e; try discriminate; cbn [step tun];
    destruct (run _ flow); cbn [snd] in *; by rewrite IH.
Qed.

(** X14. Once the connect callback has run, every chunk of either socket is
    written to the other one as it is, in the order of arrival, behind the
    200 line and the head. *)
Theorem tunnel_bridges now req head st flow :
  Forall (fun e => is_chunk e = true) flow ->
  (connect_session now req head st (ServerConnect :: flow)).2
  = (handleHttpsConnect now req head st).2
    ++ ClientWrite established :: ServerWrite head :: (flow ≫= bridged).
Proof.
  intros Hflow. unfold connect_session.
  assert (Htun : tun (handleHttpsConnect now req head st).1 = Connecting head).
  { unfold handleHttpsConnect. by destruct (parseConnectUrl (url req)). }
  destruct (handleHttpsConnect now req head st) as [[lg t] out].
  cbn [fst snd tun] in *. subst t. cbn [run step tun logger].
  pose proof (run_bridged lg flow Hflow) as Hb.
  destruct (run _ flow) as [w out']. cbn [snd] in *. by rewrite Hb.
Qed.

Lemma tunnel_bridges_witness :
  (connect_session "2024-01-01T00:00:00.000Z" (request "CONNECT" "example.com:443" ∅)
     "hello" empty_logger
     (ServerConnect :: [ClientData "ping"; ServerData "pong"])).2
  = (handleHttpsConnect "2024-01-01T00:00:00.000Z"
       (request "CONNECT" "example.com:443" ∅) "hello" empty_logger).2
    ++ ClientWrite established :: ServerWrite "hello"
       :: ([ClientData "ping"; ServerData "pong"] ≫= bridged).
Proof.
  apply tunnel_bridges. repeat constructor.
Defined.

(** ** The answer of the destination *)

Lemma relay_body chunks :
  relay_run Responding ((ProxyData <$> chunks) ++ [ProxyEnd])
  = (Finished, (Body <$> chunks) ++ [Finish]).
Proof.
  induction chunks as [|c chunks IH]; [done|].
  cbn [fmap list_fmap app relay_run relay_step]. by rewrite IH.
Qed.

(** X15. The status, the headers and the body of the destination's response reach
    the client as they are and in order, and the response is ended when the
    body is. *)
Theorem relay_is_verbatim statusCode hdrs chunks :
  relay_run Waiting (ProxyResponse statusCode hdrs :: (ProxyData <$> chunks) ++ [ProxyEnd])
  = (Finished, Head statusCode hdrs :: (Body <$> chunks) ++ [Finish]).
Proof. cbn [relay_run relay_step]. by rewrite relay_body. Qed.

Lemma relay_thrown evs : relay_run Thrown evs = (Thrown, []).
Proof.
  induction evs as [|e evs IH]; [done|]. cbn [relay_run].
  destruct e; cbn [relay_step]; by rewrite IH.
Qed.

Lemma heads_app out1 out2 : heads (out1 ++ out2) = heads out1 ++ heads out2.
Proof. apply omap_app. Qed.

Lemma relay_no_more_heads r evs :
  r <> Waiting -> heads (relay_run r evs).2 = [].
Proof.
  revert r. induction evs as [|e evs IH]; intros r Hr; [done|].
  cbn [relay_run].
  destruct r, e; try done; cbn [relay_step];
    match goal with
    | |- context [relay_run ?q evs] =>
        specialize (IH q); destruct (relay_run q evs) as [? ?]
    end; cbn [snd app] in *; unfold heads in *; cbn [omap list_omap]; by apply IH.
Qed.

(** X16. Whatever the request to the destination delivers, the client gets at
    most one status line: the one of the response, or the 500 of a failure
    that comes before any response. *)
Theorem relay_single_status_line evs :
  (length (heads (relay_run Waiting evs).2) <= 1)%nat.
Proof.
  induction evs as [|e evs IH]; [cbn; lia|].
  cbn [relay_run]. destruct e; cbn [relay_step];
    try (destruct (relay_run Waiting evs); exact IH).
  - pose proof (relay_no_more_heads Responding evs) as Hr.
    destruct (relay_run Responding evs). cbn [snd app] in *.
    unfold heads in *. cbn [omap list_omap]. rewrite Hr by done. cbn. lia.
  - pose proof (relay_no_more_heads Finished evs) as Hr.
    destruct (relay_run Finished evs). cbn [snd app] in *.
    unfold heads in *. cbn [omap list_omap]. rewrite Hr by done. cbn. lia.
Qed.

(** X17. A failure of the request once the response has started is not answered
    with a 500: the headers are out, [res.writeHead(500)] throws, and the
    client has received the status, the headers and the chunks relayed so
    far, without an end. *)
Theorem relay_failure_after_headers statusCode hdrs chunks evs :
  relay_run Waiting
    (ProxyResponse statusCode hdrs :: (ProxyData <$> chunks) ++ ProxyError :: evs)
  = (Thrown, Head statusCode hdrs :: (Body <$> chunks)).
Proof.
  cbn [relay_run relay_step].
  assert (H : relay_run Responding ((ProxyData <$> chunks) ++ ProxyError :: evs)
              = (Thrown, Body <$> chunks)).
  { induction chunks as [|c chunks IH].
    - cbn [fmap list_fmap app relay_run relay_step]. by rewrite relay_thrown.
    - cbn [fmap list_fmap app relay_run relay_step]. by rewrite IH. }
  by rewrite H.
Qed.

(** ** The log over a run of the server *)

Lemma logRequest_consistent entry st :
  well_formed_entry entry -> consistent st -> consistent (logRequest entry st).
Proof.
  intros Hentry (Hu & Hw & Hf). split; [|split].
  - by apply logRequest_uniqueDomains.
  - unfold logRequest, writeToLogFile. cbn [logEntries].
    apply Forall_app. split; [done|]. by repeat constructor.
  - unfold logRequest, writeToLogFile. cbn [logEntries logFile].
    rewrite fmap_app. by apply suffix_app.
Qed.

Lemma serve_one_consistent url_parse st c :
  consistent st -> consistent (serve_one url_parse st c).
Proof.
  intros Hst. destruct c as [now req|now req head|]; cbn [serve_one].
  - unfold handleHttpRequest.
    destruct (String.eqb_spec (dest_hostname (resolve url_parse req)) "") as [|Hne];
      [done|].
    destruct (String.eqb_spec (dest_hostname (resolve url_parse req)) "unknown")
      as [|Hunk]; [done|].
    cbn [orb fst]. apply logRequest_consistent; [|done]. by split.
  - unfold handleHttpsConnect. destruct (parseConnectUrl (url req)) as [h p].
    cbn [fst logger]. apply logRequest_consistent; [|done]. by split.
  - destruct Hst as (_ & _ & Hf). split; [|split]; cbn [clearLogs logEntries].
    + reflexivity.
    + constructor.
    + apply suffix_nil.
Qed.

(** X18. After any sequence of plain requests, CONNECT requests and calls of
    [clearLogs] on a fresh logger: the set of domains holds exactly the host
    names of the entries in the log; every entry tagged HTTP has a host name
    that is neither empty nor ["unknown"], and every entry tagged HTTPS has
    method ["CONNECT"] and path ["/"]; and the lines of the entries in the
    log are the last lines of the log file, which [clearLogs] never
    shortens. *)
Theorem serve_keeps_log_consistent url_parse calls :
  uniqueDomains (serve url_parse calls)
  = logged_hostnames (logEntries (serve url_parse calls))
  /\ Forall well_formed_entry (logEntries (serve url_parse calls))
  /\ (logLine <$> logEntries (serve url_parse calls))
     `suffix_of` logFile (serve url_parse calls).
Proof.
  unfold serve. change (consistent (fold_left (serve_one url_parse) calls empty_logger)).
  assert (Hinit : consistent empty_logger).
  { split; [done|]. split; [constructor|apply suffix_nil]. }
  revert Hinit. generalize empty_logger.
  induction calls as [|c calls IH]; intros st Hst; [done|].
  cbn [fold_left]. by apply IH, serve_one_consistent.
Qed.

(** ** Statistics *)

Lemma domainCounts_length log :
  length (domainCounts log) = size (logged_hostnames log).
Proof.
  destruct (domainCounts_spec log) as (Hs & Hk & _).
  apply StronglySorted_NoDup_lt in Hs.
  rewrite <- (length_fmap fst).
  rewrite <- (size_list_to_set (C := gset string)) by done.
  f_equal. unfold logged_hostnames. apply set_eq. intros k.
  by rewrite !elem_of_list_to_set.
Qed.

(** X19. After any run of the server, the number of unique domains that
    [getStats] reports is the number of distinct host names in the log, and
    the list of top domains has that many entries, or ten when there are
    more. *)
Theorem getStats_unique_domains url_parse calls :
  let st := serve url_parse calls in
  stat_uniqueDomains (getStats st) = size (logged_hostnames (logEntries st))
  /\ length (topDomains (getStats st)) = Nat.min 10 (stat_uniqueDomains (getStats st)).
Proof.
  intros st.
  assert (Hu : uniqueDomains st = logged_hostnames (logEntries st)).
  { unfold st, serve.
    assert (Hinit : consistent empty_logger).
    { split; [done|]. split; [constructor|apply suffix_nil]. }
    revert Hinit. generalize empty_logger.
    induction calls as [|c calls IH]; intros st0 Hst; [apply Hst|].
    cbn [fold_left]. by apply IH, serve_one_consistent. }
  assert (Hstat : stat_uniqueDomains (getStats st) = size (uniqueDomains st)).
  { unfold getStats. by destruct (fold_left tally (logEntries st) ([], 0, 0)) as [[? ?] ?]. }
  split; [by rewrite Hstat, Hu|].
  rewrite topDomains_getStats, length_take, sort_length, length_fmap.
  by rewrite domainCounts_length, Hstat, Hu.
Qed.

Lemma tagged_cons p e log :
  tagged p (e :: log) = (if decide (protocol e = p) then 1 else 0) + tagged p log.
Proof.
  unfold tagged. rewrite filter_cons. case_decide; cbn [length]; lia.
Qed.

Lemma tally_protocols log : forall acc,
  (fold_left tally log acc).1.2 = acc.1.2 + tagged HTTP log
  /\ (fold_left tally log acc).2 = acc.2 + tagged HTTPS log.
Proof.
  induction log as [|e log IH]; intros acc; cbn [fold_left].
  { unfold tagged. cbn. lia. }
  destruct (IH (tally acc e)) as [-> ->]. rewrite !tagged_cons.
  destruct acc as [[m a] b]. unfold tally.
  destruct (protocol e); cbn [fst snd]; repeat case_decide; try congruence; lia.
Qed.

Lemma tagged_total log :
  tagged HTTP log + tagged HTTPS log = Z.of_nat (length log).
Proof.
  induction log as [|e log IH]; [done|].
  rewrite !tagged_cons. cbn [length].
  destruct (protocol e); repeat case_decide; try congruence; lia.
Qed.

(** X20. The protocol split of [getStats] counts the entries tagged HTTP and the
    entries tagged HTTPS, and the two counts add up to the total number of
    requests. *)
Theorem getStats_protocol_split st :
  protocolStats (getStats st)
  = (tagged HTTP (logEntries st), tagged HTTPS (logEntries st))
  /\ tagged HTTP (logEntries st) + tagged HTTPS (logEntries st)
     = Z.of_nat (totalRequests (getStats st)).
Proof.
  split.
  - unfold getStats.
    destruct (tally_protocols (logEntries st) ([], 0, 0)) as [Ha Hb].
    destruct (fold_left tally (logEntries st) ([], 0, 0)) as [[m a] b].
    cbn [fst snd protocolStats] in *. by rewrite Ha, Hb.
  - assert (Htotal : totalRequests (getStats st) = length (logEntries st)).
    { unfold getStats. by destruct (fold_left tally (logEntries st) ([], 0, 0)) as [[? ?] ?]. }
    rewrite Htotal. apply tagged_total.
Qed.

(** *** The sort keeps the elements *)

Lemma insert_Permutation x (l : list DomainCount) : insert by_count x l ≡ₚ x :: l.
Proof.
  induction l as [|y l IH]; cbn [insert]; [done|].
  destruct (by_count x y <=? 0); [done|]. rewrite IH. apply Permutation_swap.
Qed.

Lemma sort_Permutation (l : list DomainCount) : sort by_count l ≡ₚ l.
Proof.
  unfold sort. induction l as [|x l IH]; cbn [foldr]; [done|].
  by rewrite insert_Permutation, IH.
Qed.

Lemma total_count_cons a l : total_count (a :: l) = count a + total_count l.
Proof. reflexivity. Qed.

Lemma total_count_app l1 l2 : total_count (l1 ++ l2) = total_count l1 + total_count l2.
Proof.
  induction l1 as [|a l1 IH]; [reflexivity|].
  cbn [app]. rewrite !total_count_cons, IH. lia.
Qed.

Lemma total_count_Permutation l1 l2 : l1 ≡ₚ l2 -> total_count l1 = total_count l2.
Proof.
  induction 1 as [|a l1 l2 _ IH|a b l|l1 l2 l3 _ IH1 _ IH2];
    rewrite ?total_count_cons; lia.
Qed.

Lemma total_count_nonneg l : Forall (fun a => 0 <= count a) l -> 0 <= total_count l.
Proof. induction 1; rewrite ?total_count_cons; [done|lia]. Qed.

Lemma entry_of_incr h m :
  h ∈ m.*1 -> NoDup m.*1 ->
  total_count (entry_of <$> (incr h <$> m)) = total_count (entry_of <$> m) + 1.
Proof.
  induction m as [|[k v] m IH]; cbn [fmap list_fmap fst]; [by intros []%elem_of_nil|].
  intros Hin [Hk Hnd]%NoDup_cons. rewrite !total_count_cons.
  unfold incr at 1. cbn [fst snd entry_of count].
  case_bool_decide as Hkh.
  - subst k. rewrite incr_other by done. cbn [entry_of count]. lia.
  - apply elem_of_cons in Hin as [->|Hin]; [done|]. rewrite IH by done.
    cbn [entry_of count]. lia.
Qed.

(** The counts of [domainCounts] add up to the number of entries. *)
Lemma domainCounts_total log :
  total_count (entry_of <$> domainCounts log) = Z.of_nat (length log).
Proof.
  induction log as [|e log IH] using rev_ind; [reflexivity|].
  rewrite domainCounts_snoc, length_app. cbn [length].
  destruct (domainCounts_spec log) as (Hs & _ & _).
  apply StronglySorted_NoDup_lt in Hs.
  destruct (decide (hostname e ∈ (domainCounts log).*1)) as [Hin|Hin].
  - rewrite bump_old, entry_of_incr by done. lia.
  - rewrite bump_new, fmap_app, total_count_app by done. cbn. lia.
Qed.

Lemma frequency_nonneg h log : 0 <= frequency h log.
Proof. unfold frequency. lia. Qed.

Lemma sorted_counts_frequency log :
  Forall (fun a => count a = frequency (domain a) log)
    (sort by_count (entry_of <$> domainCounts log)).
Proof.
  apply sort_Forall. destruct (domainCounts_spec log) as (_ & _ & Hf).
  rewrite Forall_fmap. eapply Forall_impl; [exact Hf|]. by intros [k v].
Qed.

(** X21. The counts of the top domains never add up to more than the total
    number of requests, and they add up to exactly that number when the log
    holds at most ten distinct host names. *)
Theorem topDomains_total st :
  total_count (topDomains (getStats st)) <= Z.of_nat (length (logEntries st))
  /\ ((size (logged_hostnames (logEntries st)) <= 10)%nat ->
      total_count (topDomains (getStats st)) = Z.of_nat (length (logEntries st))).
Proof.
  rewrite topDomains_getStats.
  set (full := sort by_count (entry_of <$> domainCounts (logEntries st))).
  assert (Hfull : total_count full = Z.of_nat (length (logEntries st))).
  { unfold full. rewrite (total_count_Permutation _ _ (sort_Permutation _)).
    apply domainCounts_total. }
  assert (Hrest : 0 <= total_count (drop 10 full)).
  { apply total_count_nonneg, Forall_drop.
    eapply Forall_impl; [apply sorted_counts_frequency|].
    intros a ->. apply frequency_nonneg. }
  rewrite <- (take_drop 10 full), total_count_app in Hfull.
  split; [lia|]. intros Hsmall.
  rewrite drop_ge in Hfull; [cbn in Hfull; lia|].
  unfold full. rewrite sort_length, length_fmap, domainCounts_length. lia.
Qed.

Lemma topDomains_total_witness :
  total_count (topDomains (getStats sample_logger))
  = Z.of_nat (length (logEntries sample_logger)).
Proof.
  apply (topDomains_total sample_logger). vm_compute. lia.
Defined.

(** *** The top domains are the most frequent ones *)

Lemma entry_of_logged log h :
  h ∈ hostname <$> log ->
  {| domain := h; count := frequency h log |}
  ∈ sort by_count (entry_of <$> domainCounts log).
Proof.
  intros Hh. rewrite sort_Permutation.
  destruct (domainCounts_spec log) as (_ & Hk & Hf).
  apply Hk, list_elem_of_fmap in Hh as ([k v] & -> & Hp).
  rewrite Forall_forall in Hf. specialize (Hf _ Hp). cbn [fst snd] in *. subst v.
  apply list_elem_of_fmap. by exists (k, frequency k log).
Qed.

(** X22. A logged host name that is missing from the list of top domains is not
    more frequent than any domain of the list. *)
Theorem topDomains_are_most_frequent st a h :
  a ∈ topDomains (getStats st) ->
  h ∈ hostname <$> logEntries st ->
  h ∉ domain <$> topDomains (getStats st) ->
  frequency h (logEntries st) <= count a.
Proof.
  rewrite topDomains_getStats.
  set (log := logEntries st).
  set (full := sort by_count (entry_of <$> domainCounts log)).
  intros Ha Hh Hout.
  pose proof (entry_of_logged log h Hh) as Hfull. fold full in Hfull.
  rewrite <- (take_drop 10 full) in Hfull.
  apply elem_of_app in Hfull as [Hin|Hin].
  { exfalso. apply Hout. apply list_elem_of_fmap. by eexists; split; [|exact Hin]. }
  assert (Hs : StronglySorted (ranks_before log) (take 10 full ++ drop 10 full)).
  { rewrite take_drop. apply sort_ranked.
    destruct (domainCounts_spec log) as (Hs & _ & _).
    revert Hs. generalize (domainCounts log). intros m.
    induction m as [|[k v] m IH]; cbn [fmap list_fmap fst]; [constructor|].
    intros [Hk Hs]%StronglySorted_cons. constructor; [by apply IH|].
    rewrite Forall_fmap. rewrite Forall_fmap in Hk.
    eapply Forall_impl; [exact Hk|]. by intros [k' v']. }
  pose proof (StronglySorted_app_1_elem_of _ _ _ _ _ Hs Ha Hin) as Hr.
  unfold ranks_before in Hr. cbn [count domain] in Hr. lia.
Qed.

Lemma topDomains_are_most_frequent_witness :
  frequency "k.example" (logEntries crowded_logger)
  <= count {| domain := "a.example"; count := 1 |}.
Proof.
  apply (topDomains_are_most_frequent crowded_logger).
  - vm_compute. apply list_elem_of_In. cbn. tauto.
  - vm_compute. apply list_elem_of_In. cbn. tauto.
  - vm_compute. intros H%list_elem_of_In. cbn in H.
    repeat (destruct H as [H|H]; [discriminate H|]). exact H.
Defined.

(** X23. The list of top domains names no host twice, and every host it names
    is in the log. *)
Theorem topDomains_distinct st :
  NoDup (domain <$> topDomains (getStats st))
  /\ (forall a, a ∈ topDomains (getStats st) -> domain a ∈ hostname <$> logEntries st).
Proof.
  rewrite topDomains_getStats.
  set (log := logEntries st).
  set (full := sort by_count (entry_of <$> domainCounts log)).
  destruct (domainCounts_spec log) as (Hs & Hk & _).
  apply StronglySorted_NoDup_lt in Hs.
  assert (Hdom : domain <$> full ≡ₚ (domainCounts log).*1).
  { assert (Heq : domain <$> (entry_of <$> domainCounts log) = (domainCounts log).*1).
    { rewrite <- list_fmap_compose. apply list_fmap_ext. by intros _ [k v] _. }
    unfold full. by rewrite sort_Permutation, Heq. }
  split.
  - apply (sublist_NoDup _ (domain <$> full));
      first [ by rewrite Hdom | rewrite fmap_take; apply sublist_take ].
  - intros a Ha. apply Hk. rewrite <- Hdom. apply list_elem_of_fmap.
    exists a. split; [done|].
    apply elem_of_take in Ha as (i & Hi & _). by eapply list_elem_of_lookup_2.
Qed.

End TrafficLoggerMore.
